(** * The ice-cream parlor: pricing, payment and shift accounting

    A shallow embedding of [main.py] and [inventory.py].

    - Python [int] is unbounded, so every price and count is a [Z].
    - [datetime.datetime.now()] is the environment's clock: each method that
      reads it takes the instant it read as the argument [now].
    - [Order] and [Shift] objects are mutable and shared by reference, so
      they live in a store ([world]) and are named by their location; the
      dataclasses [Topping], [IceCreamFlavor], [Container] and the [Portion]
      objects are never mutated after construction and are plain values.
    - A raised exception is a [Raise] result.  The store is threaded through
      a failing call as well, so what a method changed before it raised
      stays changed.
    - The [print] calls of [open], [close] and [add_order] come last in
      their method and format a time the method has just set; they change
      nothing and are left out, as are the [__repr__] methods. *)

From Stdlib Require Import Ascii.
From stdpp Require Import gmap strings list fin_maps pretty.

Open Scope Z_scope.

(** ** Exceptions and results *)

Inductive exn : Type :=
  | ValueError (msg : string)
  | IndexError (msg : string).

Inductive result (A : Type) : Type :=
  | Ok (a : A)
  | Raise (e : exn).
Arguments Ok {A} a.
Arguments Raise {A} e.

(** The builtin [sum]: a left-to-right accumulation starting from 0. *)
Definition py_sum (l : list Z) : Z := fold_left Z.add l 0.

(** ** Catalog items (dataclasses) *)

Module Topping.
Record t : Type := mk { name : string; price : Z }.
End Topping.

Module IceCreamFlavor.
Record t : Type := mk { name : string; price_per_ball : Z }.
End IceCreamFlavor.

Module Container.
Record t : Type := mk { type_name : string; max_balls : Z; base_price : Z }.
End Container.

(** ** Portion *)

Module Portion.

Record t : Type := mk {
  flavors : list IceCreamFlavor.t;
  balls_count : list Z;
  container : Container.t;
  topping : option Topping.t
}.

Definition msg_quantity : string :=
  "The quantity of scoops should correspond to the quantoty of flavors.".

(** f"Maximum {container.max_balls} scoops allowed for '{container.type_name}'." *)
Definition msg_maximum (c : Container.t) : string :=
  "Maximum " +:+ pretty (Container.max_balls c) +:+ " scoops allowed for '"
    +:+ Container.type_name c +:+ "'.".

(** [Portion.__init__] *)
Definition init (flavors : list IceCreamFlavor.t) (balls_count : list Z)
    (container : Container.t) (topping : option Topping.t) : result t :=
  if negb (length balls_count =? length flavors)%nat then
    Raise (ValueError msg_quantity)
  else
    let total_balls := py_sum balls_count in
    if total_balls >? Container.max_balls container then
      Raise (ValueError (msg_maximum container))
    else
      Ok (mk flavors balls_count container topping).

(** The property [Portion.total_price] *)
Definition total_price (self : t) : Z :=
  let price := Container.base_price (container self) in
  let price := price +
    py_sum (map (fun '(flavor, count) => IceCreamFlavor.price_per_ball flavor * count)
                (combine (flavors self) (balls_count self))) in
  match topping self with
  | Some tp => price + Topping.price tp
  | None => price
  end.

End Portion.

(** ** What the specification says about portions *)

(** The error kinds named by the specification are all [ValueError] in the
    program; they are told apart by the raise site, that is by the message. *)
Definition InvalidCompositionError : exn := ValueError Portion.msg_quantity.
Definition CapacityExceededError (c : Container.t) : exn :=
  ValueError (Portion.msg_maximum c).

(** Σ(flavor.price_per_ball × count) over the lines of a portion, by
    recursion on the lines. *)
Fixpoint lines_price (lines : list (IceCreamFlavor.t * Z)) : Z :=
  match lines with
  | [] => 0
  | (f, n) :: rest => IceCreamFlavor.price_per_ball f * n + lines_price rest
  end.

Definition topping_price_or_0 (tp : option Topping.t) : Z :=
  match tp with Some x => Topping.price x | None => 0 end.

(** Σcounts of a list of (flavor, count) pairs. *)
Fixpoint counts_total (L : list (IceCreamFlavor.t * Z)) : Z :=
  match L with
  | [] => 0
  | (_, n) :: rest => n + counts_total rest
  end.

(** The acceptance condition the specification gives for a composition. *)
Definition spec_valid_composition (C : Container.t) (L : list (IceCreamFlavor.t * Z)) : Prop :=
  1 <= counts_total L <= Container.max_balls C /\ Forall (fun fn => 1 <= fn.2) L.

(** ** The store of mutable objects *)

(** A location names an object; two variables holding the same location
    are aliases of one object. *)
Definition loc : Type := nat.

(** What [datetime.datetime.now()] returns. *)
Definition instant : Type := Z.

Module Order.

Record t : Type := mk {
  number : Z;
  portions : list Portion.t;
  paid : bool;
  time_of_payment : option instant
}.

Definition set_portions (v : list Portion.t) (o : t) : t :=
  mk (number o) v (paid o) (time_of_payment o).
Definition set_paid (v : bool) (o : t) : t :=
  mk (number o) (portions o) v (time_of_payment o).
Definition set_time_of_payment (v : option instant) (o : t) : t :=
  mk (number o) (portions o) (paid o) v.

End Order.

Module Shift.

Record t : Type := mk {
  number : Z;
  start_time : option instant;
  end_time : option instant;
  orders : list loc
}.

Definition set_start_time (v : option instant) (s : t) : t :=
  mk (number s) v (end_time s) (orders s).
Definition set_end_time (v : option instant) (s : t) : t :=
  mk (number s) (start_time s) v (orders s).
Definition set_orders (v : list loc) (s : t) : t :=
  mk (number s) (start_time s) (end_time s) v.

End Shift.

(** The class attributes [Order._order_counter] and [Shift._shift_counter]
    and the two heaps of instances. *)
Record world : Type := mk_world {
  order_counter : Z;
  shift_counter : Z;
  order_heap : gmap loc Order.t;
  shift_heap : gmap loc Shift.t
}.

Definition set_order_counter (v : Z) (w : world) : world :=
  mk_world v (shift_counter w) (order_heap w) (shift_heap w).
Definition set_shift_counter (v : Z) (w : world) : world :=
  mk_world (order_counter w) v (order_heap w) (shift_heap w).
Definition set_order_heap (v : gmap loc Order.t) (w : world) : world :=
  mk_world (order_counter w) (shift_counter w) v (shift_heap w).
Definition set_shift_heap (v : gmap loc Shift.t) (w : world) : world :=
  mk_world (order_counter w) (shift_counter w) (order_heap w) v.

(** The state of the process when [main.py] has been loaded. *)
Definition init_world : world := mk_world 0 0 ∅ ∅.

(** ** The monad of methods

    A computation takes the store and gives a result and the store it left
    behind.  [None] is not a Python outcome: it marks a call on a location
    that holds no object, which no Python program can make. *)
Definition M (A : Type) : Type := world -> option (result A * world).

#[global] Instance M_ret : MRet M := fun A a w => Some (Ok a, w).

#[global] Instance M_bind : MBind M := fun A B f m w =>
  match m w with
  | None => None
  | Some (Ok a, w') => f a w'
  | Some (Raise e, w') => Some (Raise e, w')
  end.

Definition raise {A : Type} (e : exn) : M A := fun w => Some (Raise e, w).

Definition get_world : M world := fun w => Some (Ok w, w).
Definition modify_world (f : world -> world) : M unit := fun w => Some (Ok tt, f w).

(** Reading an attribute of an [Order] object: fetch the object. *)
Definition get_order (l : loc) : M Order.t := fun w =>
  match order_heap w !! l with
  | Some o => Some (Ok o, w)
  | None => None
  end.

(** Assigning to an attribute of an [Order] object. *)
Definition update_order (l : loc) (f : Order.t -> Order.t) : M unit := fun w =>
  match order_heap w !! l with
  | Some o => Some (Ok tt, set_order_heap (<[l := f o]> (order_heap w)) w)
  | None => None
  end.

(** Creating an [Order] object: a location not in use. *)
Definition alloc_order (o : Order.t) : M loc := fun w =>
  let l := fresh (dom (order_heap w)) in
  Some (Ok l, set_order_heap (<[l := o]> (order_heap w)) w).

Definition get_shift (l : loc) : M Shift.t := fun w =>
  match shift_heap w !! l with
  | Some s => Some (Ok s, w)
  | None => None
  end.

Definition update_shift (l : loc) (f : Shift.t -> Shift.t) : M unit := fun w =>
  match shift_heap w !! l with
  | Some s => Some (Ok tt, set_shift_heap (<[l := f s]> (shift_heap w)) w)
  | None => None
  end.

Definition alloc_shift (s : Shift.t) : M loc := fun w =>
  let l := fresh (dom (shift_heap w)) in
  Some (Ok l, set_shift_heap (<[l := s]> (shift_heap w)) w).

(** ** Order: the methods *)

Module OrderM.

Definition msg_empty : string := "Can't pay for an empty order.".

(** [Order.__init__] *)
Definition init : M loc :=
  w ← get_world;
  modify_world (set_order_counter (order_counter w + 1));;
  w ← get_world;
  alloc_order (Order.mk (order_counter w) [] false None).

(** The property [Order.total_price] *)
Definition total_price (self : loc) : M Z :=
  o ← get_order self;
  mret (py_sum (map Portion.total_price (Order.portions o))).

(** [Order.add_portion] *)
Definition add_portion (self : loc) (portion : Portion.t) : M unit :=
  o ← get_order self;
  update_order self (Order.set_portions (Order.portions o ++ [portion])).

(** [Order.pay] *)
Definition pay (self : loc) (now : instant) : M unit :=
  o ← get_order self;
  match Order.portions o with
  | [] => raise (ValueError msg_empty)
  | _ :: _ =>
      update_order self (Order.set_paid true);;
      update_order self (Order.set_time_of_payment (Some now))
  end.

End OrderM.

(** ** Shift: the methods *)

Module ShiftM.

Definition msg_reopen : string := "Can not reopen a closed shift.".
Definition msg_not_opened : string := "Shift is not opened yet.".
Definition msg_closed : string := "Can't add an order to a closed shift.".

(** [Shift.__init__] *)
Definition init : M loc :=
  w ← get_world;
  modify_world (set_shift_counter (shift_counter w + 1));;
  w ← get_world;
  alloc_shift (Shift.mk (shift_counter w) None None []).

(** The property [Shift.is_open], on the object's attributes *)
Definition is_open_of (s : Shift.t) : bool :=
  match Shift.start_time s, Shift.end_time s with
  | Some _, None => true
  | _, _ => false
  end.

Definition is_open (self : loc) : M bool :=
  s ← get_shift self;
  mret (is_open_of s).

(** [sum(order.total_price for order in ...)]: the generator is consumed
    one order at a time into the accumulator of [sum]. *)
Fixpoint sum_total_prices (os : list loc) (acc : Z) : M Z :=
  match os with
  | [] => mret acc
  | order :: rest =>
      p ← OrderM.total_price order;
      sum_total_prices rest (acc + p)
  end.

(** The property [Shift.revenue] *)
Definition revenue (self : loc) : M Z :=
  s ← get_shift self;
  sum_total_prices (Shift.orders s) 0.

(** [Shift.open] *)
Definition open (self : loc) (now : instant) : M unit :=
  b ← is_open self;
  if b : bool then mret tt
  else
    s ← get_shift self;
    match Shift.end_time s with
    | Some _ => raise (ValueError msg_reopen)
    | None => update_shift self (Shift.set_start_time (Some now))
    end.

(** [Shift.close] *)
Definition close (self : loc) (now : instant) : M unit :=
  b ← is_open self;
  if negb b then raise (ValueError msg_not_opened)
  else update_shift self (Shift.set_end_time (Some now)).

(** [Shift.add_order] *)
Definition add_order (self : loc) (order : loc) (now : instant) : M unit :=
  b ← is_open self;
  if negb b then raise (ValueError msg_closed)
  else
    OrderM.pay order now;;
    s ← get_shift self;
    update_shift self (Shift.set_orders (Shift.orders s ++ [order])).

End ShiftM.

(** The error kinds the specification names for orders and shifts, by
    raise site. *)
Definition EmptyOrderError : exn := ValueError OrderM.msg_empty.
Definition ReopenClosedShiftError : exn := ValueError ShiftM.msg_reopen.
Definition ShiftNotOpenError_close : exn := ValueError ShiftM.msg_not_opened.
Definition ShiftNotOpenError_add : exn := ValueError ShiftM.msg_closed.

(** ** Programs over the classes

    A client of the classes makes method calls one after the other, each on
    objects it obtained from earlier constructor calls. *)
Inductive call : Type :=
  | NewOrder
  | AddPortion (order : loc) (portion : Portion.t)
  | Pay (order : loc) (now : instant)
  | OrderTotalPrice (order : loc)
  | NewShift
  | Open (shift : loc) (now : instant)
  | Close (shift : loc) (now : instant)
  | AddOrder (shift order : loc) (now : instant)
  | Revenue (shift : loc)
  | IsOpen (shift : loc).

Inductive value : Type :=
  | VNone
  | VRef (l : loc)
  | VInt (z : Z)
  | VBool (b : bool).

Definition run_call (c : call) : M value :=
  match c with
  | NewOrder => l ← OrderM.init; mret (VRef l)
  | AddPortion o p => OrderM.add_portion o p;; mret VNone
  | Pay o now => OrderM.pay o now;; mret VNone
  | OrderTotalPrice o => z ← OrderM.total_price o; mret (VInt z)
  | NewShift => l ← ShiftM.init; mret (VRef l)
  | Open s now => ShiftM.open s now;; mret VNone
  | Close s now => ShiftM.close s now;; mret VNone
  | AddOrder s o now => ShiftM.add_order s o now;; mret VNone
  | Revenue s => z ← ShiftM.revenue s; mret (VInt z)
  | IsOpen s => b ← ShiftM.is_open s; mret (VBool b)
  end.

(** Running a sequence of calls; a call that raises leaves the store as it
    left it and the client goes on. *)
Fixpoint run_calls (cs : list call) (w : world) : option world :=
  match cs with
  | [] => Some w
  | c :: rest =>
      match run_call c w with
      | Some (_, w') => run_calls rest w'
      | None => None
      end
  end.

Inductive reachable : world -> Prop :=
  | reachable_init : reachable init_world
  | reachable_call w c r w' :
      reachable w -> run_call c w = Some (r, w') -> reachable w'.

(** The order that the call [c] with the result [r] added to the shift [s]
    via [add_order], if it is such a call on [s] and it returned. *)
Definition accepted (c : call) (r : result value) (s : loc) : list loc :=
  match c, r with
  | AddOrder s' o _, Ok _ => if decide (s' = s) then [o] else []
  | _, _ => []
  end.

(** The orders that [add_order] accepted on the shift [s] during the calls
    [cs] from the store [w], in the order of the calls. *)
Fixpoint added_via_add_order (s : loc) (cs : list call) (w : world) : list loc :=
  match cs with
  | [] => []
  | c :: rest =>
      match run_call c w with
      | Some (r, w') => accepted c r s ++ added_via_add_order s rest w'
      | None => []
      end
  end.

(** An order that has been paid: the flag is set and the time is there. *)
Definition settled (o : Order.t) : Prop :=
  Order.paid o = true /\ exists t : instant, Order.time_of_payment o = Some t.

(** The order object after [pay] at the instant [now]. *)
Definition stamped (now : instant) (o : Order.t) : Order.t :=
  Order.set_time_of_payment (Some now) (Order.set_paid true o).

(** Σ prices, by recursion on the list. *)
Fixpoint sum_Z (l : list Z) : Z :=
  match l with
  | [] => 0
  | x :: rest => x + sum_Z rest
  end.

(** [prices] are the current values of [total_price] of the orders [os]. *)
Definition prices_of (w : world) (os : list loc) (prices : list Z) : Prop :=
  Forall2 (fun o p => OrderM.total_price o w = Some (Ok p, w)) os prices.

(** The reading of "pay succeeds exactly once": after a call of [pay] on
    the order that returned, no further call of [pay] on it returns. *)
Definition pays_at_most_once (w : world) (order : loc) : Prop :=
  forall (now1 now2 : instant) (w1 w2 : world) (r : result unit),
    OrderM.pay order now1 w = Some (Ok tt, w1) ->
    OrderM.pay order now2 w1 = Some (r, w2) ->
    exists e : exn, r = Raise e.

(** The three lifecycle states of the specification, read off the two
    timestamps. *)
Inductive lifecycle : Type := UNOPENED | OPEN | CLOSED.

Definition lifecycle_of (s : Shift.t) : lifecycle :=
  match Shift.end_time s, Shift.start_time s with
  | Some _, _ => CLOSED
  | None, Some _ => OPEN
  | None, None => UNOPENED
  end.

(** Every order in every shift's [orders] is paid and stamped. *)
Definition orders_paid (w : world) : Prop :=
  forall (sl : loc) (s : Shift.t),
    shift_heap w !! sl = Some s ->
    forall ol : loc, ol ∈ Shift.orders s ->
      exists o : Order.t,
        order_heap w !! ol = Some o /\ Order.paid o = true /\
        exists t : instant, Order.time_of_payment o = Some t.

(** ** The scenario of the specification

    A cup for two balls at 30, one flavor at 50 a ball, two balls, no
    topping: 130. *)
Definition demo_flavor : IceCreamFlavor.t := IceCreamFlavor.mk "Vanilla" 50.
Definition demo_cup : Container.t := Container.mk "Cup" 2 30.
Definition demo_portion : Portion.t := Portion.mk [demo_flavor] [2] demo_cup None.

(** The store after [o = Order(); o.add_portion(demo_portion)]. *)
Definition demo_order_world : world :=
  mk_world 1 0 {[ 0%nat := Order.mk 1 [demo_portion] false None ]} ∅.

(** The store after [s = Shift(); o = Order()]: an unopened shift and an
    empty order. *)
Definition demo_shift_world : world :=
  mk_world 1 1 {[ 0%nat := Order.mk 1 [] false None ]}
    {[ 0%nat := Shift.mk 1 None None [] ]}.

(** The store after [s = Shift(); o = Order(); o.add_portion(demo_portion);
    s.open()] at the instant 1. *)
Definition demo_open_world : world :=
  mk_world 1 1 {[ 0%nat := Order.mk 1 [demo_portion] false None ]}
    {[ 0%nat := Shift.mk 1 (Some 1) None [] ]}.

(** The store after [s = Shift(); o = Order(); s.open()] at the instant 1. *)
Definition demo_open_empty_world : world :=
  mk_world 1 1 {[ 0%nat := Order.mk 1 [] false None ]}
    {[ 0%nat := Shift.mk 1 (Some 1) None [] ]}.

(** The calls of the scenario after [s = Shift()]. *)
Definition demo_calls : list call :=
  [NewOrder; AddPortion 0%nat demo_portion; Open 0%nat 1; AddOrder 0%nat 0%nat 2;
   Close 0%nat 3].

(** The store after [s = Shift()] alone, and the store at the end of the
    scenario. *)
Definition demo_new_shift_world : world :=
  mk_world 0 1 ∅ {[ 0%nat := Shift.mk 1 None None [] ]}.

Definition demo_final_world : world :=
  mk_world 1 1 {[ 0%nat := Order.mk 1 [demo_portion] true (Some 2) ]}
    {[ 0%nat := Shift.mk 1 (Some 1) (Some 3) [0%nat] ]}.

(** ** inventory.py: reading a catalog file

    Strings are sequences of 8-bit code points. *)

(** The characters [str.strip()] removes, among the first 256 code points. *)
Definition is_space (a : ascii) : bool :=
  match a with
  | "009" | "010" | "011" | "012" | "013"
  | "028" | "029" | "030" | "031" | " " | "133" | "160" => true
  | _ => false
  end%char.

Fixpoint lstrip_by (p : ascii -> bool) (s : string) : string :=
  match s with
  | EmptyString => EmptyString
  | String a s' => if p a then lstrip_by p s' else s
  end.

Definition strip_by (p : ascii -> bool) (s : string) : string :=
  String.rev (lstrip_by p (String.rev (lstrip_by p s))).

(** [s.strip()] *)
Definition str_strip (s : string) : string := strip_by is_space s.

(** [a in chars] *)
Fixpoint char_in (a : ascii) (chars : string) : bool :=
  match chars with
  | EmptyString => false
  | String c rest => bool_decide (a = c) || char_in a rest
  end.

(** [s.strip(chars)] *)
Definition str_strip_chars (chars : string) (s : string) : string :=
  strip_by (fun a => char_in a chars) s.

(** [s.split(sep)] for a separator of one character: never empty. *)
Fixpoint str_split (sep : ascii) (s : string) : list string :=
  match s with
  | EmptyString => [EmptyString]
  | String a s' =>
      if bool_decide (a = sep) then EmptyString :: str_split sep s'
      else match str_split sep s' with
           | [] => [String a EmptyString]
           | p :: ps => String a p :: ps
           end
  end.

(** The tuple built from one line: its element 0 is always a [str], the
    others are [int]s. *)
Definition tuple : Type := (string * list Z)%type.

(** What [open] and the iteration over the file give: the file is not
    there, another exception is raised on the way, or the lines. *)
Inductive file : Type :=
  | FileNotFound
  | OtherFailure
  | Lines (ls : list string).

Definition msg_invalid_literal : string := "invalid literal for int() with base 10".
Definition msg_tuple_index : string := "tuple index out of range".

Definition quote : string := String "034"%char EmptyString.

Section Inventory.

(** The builtin [int] on a [str]: [None] when it raises [ValueError]. *)
Variable int : string -> option Z.

(** The file system at the time of the call. *)
Variable fs : string -> file.

(** The inner loop over [enumerate(parts)] for i ≥ 1. *)
Fixpoint parse_ints (parts : list string) (result' : list Z) : result (list Z) :=
  match parts with
  | [] => Ok result'
  | part :: rest =>
      match int (str_strip part) with
      | Some z => parse_ints rest (result' ++ [z])
      | None => Raise (ValueError msg_invalid_literal)
      end
  end.

(** The body of the loop over the lines, for one line. *)
Definition parse_line (line : string) : result tuple :=
  match str_split ","%char (str_strip line) with
  | [] => Ok (EmptyString, [])
  | part :: rest =>
      match parse_ints rest [] with
      | Ok zs => Ok (str_strip_chars quote part, zs)
      | Raise e => Raise e
      end
  end.

(** The loop over the lines. *)
Fixpoint parse_lines (ls : list string) (tuples_list : list tuple) : result (list tuple) :=
  match ls with
  | [] => Ok tuples_list
  | line :: rest =>
      match parse_line line with
      | Ok tup => parse_lines rest (tuples_list ++ [tup])
      | Raise e => Raise e
      end
  end.

(** [read_file]: both [except] clauses return the empty list. *)
Definition read_file (fname : string) : list tuple :=
  match fs fname with
  | FileNotFound => []
  | OtherFailure => []
  | Lines ls =>
      match parse_lines ls [] with
      | Ok tuples_list => tuples_list
      | Raise _ => []
      end
  end.

(** [tup[i]] for i ≥ 1 *)
Definition tuple_int (tup : tuple) (i : nat) : result Z :=
  match tup.2 !! (i - 1)%nat with
  | Some z => Ok z
  | None => Raise (IndexError msg_tuple_index)
  end.

(** The three loading loops of [IceCreamParlor.__init__]. *)
Fixpoint append_flavors (tuples_list : list tuple) (flavors : list IceCreamFlavor.t)
    : result (list IceCreamFlavor.t) :=
  match tuples_list with
  | [] => Ok flavors
  | tup :: rest =>
      match tuple_int tup 1 with
      | Ok p => append_flavors rest (flavors ++ [IceCreamFlavor.mk tup.1 p])
      | Raise e => Raise e
      end
  end.

Fixpoint append_toppings (tuples_list : list tuple) (topings : list Topping.t)
    : result (list Topping.t) :=
  match tuples_list with
  | [] => Ok topings
  | tup :: rest =>
      match tuple_int tup 1 with
      | Ok p => append_toppings rest (topings ++ [Topping.mk tup.1 p])
      | Raise e => Raise e
      end
  end.

Fixpoint append_containers (tuples_list : list tuple) (containers : list Container.t)
    : result (list Container.t) :=
  match tuples_list with
  | [] => Ok containers
  | tup :: rest =>
      match tuple_int tup 1 with
      | Ok m =>
          match tuple_int tup 2 with
          | Ok b => append_containers rest (containers ++ [Container.mk tup.1 m b])
          | Raise e => Raise e
          end
      | Raise e => Raise e
      end
  end.

Definition load_flavors : result (list IceCreamFlavor.t) :=
  append_flavors (read_file "./data/icecream.txt") [].

Definition load_toppings : result (list Topping.t) :=
  append_toppings (read_file "./data/topping.txt") [].

Definition load_containers : result (list Container.t) :=
  append_containers (read_file "./data/container.txt") [].

(** A line fails to parse when [int] raises on one of its fields after the
    first. *)
Definition line_fails (line : string) : Prop :=
  exists part : string,
    part ∈ tail (str_split ","%char (str_strip line)) /\ int (str_strip part) = None.

(** The cases in which an [except] clause of [read_file] is taken: the
    file is not there, another exception is raised while it is opened or
    read, or [int] raises on a field of one of its lines. *)
Definition degraded (fname : string) : Prop :=
  fs fname = FileNotFound \/
  fs fname = OtherFailure \/
  exists ls : list string, fs fname = Lines ls /\ Exists line_fails ls.

End Inventory.

(** [int] on the strings of 8-bit code points, for the examples: optional
    sign, then decimal digits, with single underscores allowed between
    digits, the whole surrounded by optional white space.  It puts no limit
    on the number of digits, where an interpreter with a limit on the length
    of a decimal literal raises [ValueError] beyond it; the examples use
    short literals, and the theorems hold for every [int]. *)
Fixpoint int_digits (s : string) (acc : Z) (after_digit : bool) : option Z :=
  match s with
  | EmptyString => if after_digit then Some acc else None
  | String a s' =>
      match Ascii.is_nat a with
      | Some d => int_digits s' (10 * acc + Z.of_nat d) true
      | None =>
          if bool_decide (a = "_"%char) && after_digit
          then int_digits s' acc false else None
      end
  end.

Definition int_latin1 (s : string) : option Z :=
  match str_strip s with
  | String "-" s' => Z.opp <$> int_digits s' 0 false
  | String "+" s' => int_digits s' 0 false
  | s' => int_digits s' 0 false
  end.

(** A file system for the examples: a flavors file whose second line has a
    price that is not a number, no toppings file, a good containers file. *)
Definition newline : string := String "010"%char EmptyString.

Definition demo_fs (fname : string) : file :=
  if bool_decide (fname = "./data/icecream.txt") then
    Lines [quote +:+ "Vanilla" +:+ quote +:+ ", 80" +:+ newline;
           quote +:+ "Pistachio" +:+ quote +:+ ", a lot" +:+ newline]
  else if bool_decide (fname = "./data/container.txt") then
    Lines [quote +:+ "Cup" +:+ quote +:+ ", 2, 30" +:+ newline;
           "Cone,3,1_0" +:+ newline]
  else FileNotFound.

(** ** Numbering, timestamps and aliasing: what the stores keep *)

(** The numbers of the orders: the class counter is the number of order
    objects ever made, every number lies between 1 and the counter, and no
    two objects share a number. *)
Definition order_numbers_ok (w : world) : Prop :=
  order_counter w = Z.of_nat (size (order_heap w))
  /\ (forall (l : loc) (o : Order.t),
        order_heap w !! l = Some o -> 1 <= Order.number o <= order_counter w)
  /\ (forall (l1 l2 : loc) (o1 o2 : Order.t),
        order_heap w !! l1 = Some o1 -> order_heap w !! l2 = Some o2 ->
        Order.number o1 = Order.number o2 -> l1 = l2).

(** The same for the shifts. *)
Definition shift_numbers_ok (w : world) : Prop :=
  shift_counter w = Z.of_nat (size (shift_heap w))
  /\ (forall (l : loc) (s : Shift.t),
        shift_heap w !! l = Some s -> 1 <= Shift.number s <= shift_counter w)
  /\ (forall (l1 l2 : loc) (s1 s2 : Shift.t),
        shift_heap w !! l1 = Some s1 -> shift_heap w !! l2 = Some s2 ->
        Shift.number s1 = Shift.number s2 -> l1 = l2).

(** No shift has an end time without a start time. *)
Definition shift_times_ok (w : world) : Prop :=
  forall (sl : loc) (s : Shift.t),
    shift_heap w !! sl = Some s ->
    is_Some (Shift.end_time s) -> is_Some (Shift.start_time s).

(** How many times the order [o] stands in a list of orders. *)
Fixpoint occurrences (o : loc) (os : list loc) : Z :=
  match os with
  | [] => 0
  | x :: rest => (if decide (x = o) then 1 else 0) + occurrences o rest
  end.

(** The store after [s = Shift(); o = Order(); o.add_portion(demo_portion);
    s.open(); s.add_order(o)] at the instants 1 and 2. *)
Definition demo_added_world : world :=
  mk_world 1 1 {[ 0%nat := Order.mk 1 [demo_portion] true (Some 2) ]}
    {[ 0%nat := Shift.mk 1 (Some 1) None [0%nat] ]}.

(** ** Catalog files: what a line becomes *)

(** The item the loading loops make of a tuple, when the tuple is long
    enough: [tup[0]], [tup[1]] and, for a container, [tup[2]]; further
    elements are not read. *)
Definition flavor_of_tuple (tup : tuple) : IceCreamFlavor.t :=
  IceCreamFlavor.mk tup.1 (nth 0 tup.2 0).

Definition topping_of_tuple (tup : tuple) : Topping.t :=
  Topping.mk tup.1 (nth 0 tup.2 0).

Definition container_of_tuple (tup : tuple) : Container.t :=
  Container.mk tup.1 (nth 0 tup.2 0) (nth 1 tup.2 0).

(** A file system in which each catalog file has one line, a name without
    a price. *)
Definition demo_fs_short (fname : string) : file :=
  Lines ["Pistachio" +:+ newline].

(** A file system in which no file can be read. *)
Definition demo_fs_unreadable (fname : string) : file := OtherFailure.

(** A file system whose flavors file ends with an empty line. *)
Definition demo_fs_blank (fname : string) : file :=
  if bool_decide (fname = "./data/icecream.txt") then
    Lines [quote +:+ "Vanilla" +:+ quote +:+ ", 80" +:+ newline; newline]
  else FileNotFound.

(** Every order in every shift's [orders] has a portion. *)
Definition orders_nonempty (w : world) : Prop :=
  forall (sl : loc) (s : Shift.t),
    shift_heap w !! sl = Some s ->
    forall ol : loc, ol ∈ Shift.orders s ->
      exists o : Order.t, order_heap w !! ol = Some o /\ Order.portions o ≠ [].

(** ** The interactive layer of [IceCreamParlor]

    The operator's input is the list of the lines still to be read;
    [input(prompt)] takes the first one, without its end of line, and raises
    [EOFError] when there is none.  What is printed is left out.  A loop
    that is not bounded by the reading of a line runs on fuel; [OutOfFuel]
    is not an outcome of the program. *)

Inductive outcome (A : Type) : Type :=
  | Returns (a : A)
  | Raises (e : exn)
  | EOFError
  | OutOfFuel.
Arguments Returns {A} a.
Arguments Raises {A} e.
Arguments EOFError {A}.
Arguments OutOfFuel {A}.

(** A computation that reads the console. *)
Definition console (A : Type) : Type := list string -> outcome A * list string.

#[global] Instance console_ret : MRet console := fun A a stdin => (Returns a, stdin).

#[global] Instance console_bind : MBind console := fun A B f m stdin =>
  match m stdin with
  | (Returns a, rest) => f a rest
  | (Raises e, rest) => (Raises e, rest)
  | (EOFError, rest) => (EOFError, rest)
  | (OutOfFuel, rest) => (OutOfFuel, rest)
  end.

Definition console_raise {A : Type} (e : exn) : console A :=
  fun stdin => (Raises e, stdin).

Definition out_of_fuel {A : Type} : console A := fun stdin => (OutOfFuel, stdin).

(** [c.lower()] for one of the first 256 code points: the letters A to Z
    and the capital letters of Latin-1, which are 192 to 222 without the
    multiplication sign 215. *)
Definition char_lower (a : ascii) : ascii :=
  let n := nat_of_ascii a in
  if ((65 <=? n) && (n <=? 90) || (192 <=? n) && (n <=? 222) && negb (n =? 215))%nat
  then ascii_of_nat (n + 32) else a.

(** [s.lower()] *)
Fixpoint str_lower (s : string) : string :=
  match s with
  | EmptyString => EmptyString
  | String a rest => String (char_lower a) (str_lower rest)
  end.

Definition msg_list_index : string := "list index out of range".

Module IceCreamParlor.

(** The attributes of the parlor object ([menu] holds the same three lists
    and is left out). *)
Record t : Type := mk {
  flavors : list IceCreamFlavor.t;
  topings : list Topping.t;
  containers : list Container.t;
  shifts : list loc;
  current_shift : option loc
}.

Definition set_shifts (v : list loc) (self : t) : t :=
  mk (flavors self) (topings self) (containers self) v (current_shift self).
Definition set_current_shift (v : option loc) (self : t) : t :=
  mk (flavors self) (topings self) (containers self) (shifts self) v.

End IceCreamParlor.

Section Interactive.

(** The builtin [int] on a [str]: [None] when it raises [ValueError]. *)
Variable int : string -> option Z.

(** [IceCreamParlor._select_item]: each turn of the loop reads one line. *)
Fixpoint _select_item {A : Type} (items : list A) (stdin : list string)
    : outcome (option A) * list string :=
  match stdin with
  | [] => (EOFError, [])
  | line :: rest =>
      let choice := str_lower (str_strip line) in
      if bool_decide (choice = "x") then (Returns None, rest)
      else
        match int choice with
        | Some n =>
            let index := n - 1 in
            if (0 <=? index) && (index <? Z.of_nat (length items)) then
              match items !! Z.to_nat index with
              | Some item => (Returns (Some item), rest)
              | None => (Raises (IndexError msg_list_index), rest)
              end
            else _select_item items rest
        | None => _select_item items rest
        end
  end.

(** [IceCreamParlor._get_valid_input] *)
Fixpoint _get_valid_input (min_val max_val : Z) (stdin : list string)
    : outcome Z * list string :=
  match stdin with
  | [] => (EOFError, [])
  | line :: rest =>
      match int line with
      | Some value =>
          if (min_val <=? value) && (value <=? max_val) then (Returns value, rest)
          else _get_valid_input min_val max_val rest
      | None => _get_valid_input min_val max_val rest
      end
  end.

(** [IceCreamParlor._get_yes_no_input] *)
Fixpoint _get_yes_no_input (stdin : list string) : outcome bool * list string :=
  match stdin with
  | [] => (EOFError, [])
  | line :: rest =>
      let choice := str_lower (str_strip line) in
      if bool_decide (choice ∈ ["y"; "yes"; EmptyString]) then (Returns true, rest)
      else if bool_decide (choice ∈ ["n"; "no"]) then (Returns false, rest)
      else _get_yes_no_input rest
  end.

(** The [while remaining_balls > 0] loop of [create_portion].  It returns
    [None] where the method returns [None] from inside the loop, and the
    two lists where the loop ends. *)
Fixpoint flavor_loop (fuel : nat) (self : IceCreamParlor.t)
    (flavors : list IceCreamFlavor.t) (balls_count : list Z) (remaining_balls : Z)
    : console (option (list IceCreamFlavor.t * list Z)) :=
  if remaining_balls >? 0 then
    match fuel with
    | O => out_of_fuel
    | S fuel' =>
        flavor ← _select_item (IceCreamParlor.flavors self);
        match flavor with
        | None =>
            match flavors with
            | [] => mret None
            | _ :: _ => mret (Some (flavors, balls_count))
            end
        | Some flavor =>
            let max_possible := remaining_balls in
            balls ← _get_valid_input 1 max_possible;
            let flavors := flavors ++ [flavor] in
            let balls_count := balls_count ++ [balls] in
            let remaining_balls := remaining_balls - balls in
            if remaining_balls =? 0 then mret (Some (flavors, balls_count))
            else
              more ← _get_yes_no_input;
              if more : bool
              then flavor_loop fuel' self flavors balls_count remaining_balls
              else mret (Some (flavors, balls_count))
        end
    end
  else mret (Some (flavors, balls_count)).

(** [IceCreamParlor.create_portion].  The loop takes at least one ball
    from [remaining_balls] at each turn, so [container.max_balls] turns are
    enough. *)
Definition create_portion (self : IceCreamParlor.t) : console (option Portion.t) :=
  container ← _select_item (IceCreamParlor.containers self);
  match container with
  | None => mret None
  | Some container =>
      lists ← flavor_loop (Z.to_nat (Container.max_balls container)) self [] []
                (Container.max_balls container);
      match lists with
      | None => mret None
      | Some (flavors, balls_count) =>
          add ← _get_yes_no_input;
          topping ← (if add : bool
                     then _select_item (IceCreamParlor.topings self)
                     else mret None);
          match Portion.init flavors balls_count container topping with
          | Ok portion => mret (Some portion)
          | Raise e => console_raise e
          end
      end
  end.

End Interactive.

(** A parlor for the examples. *)
Definition demo_parlor : IceCreamParlor.t :=
  IceCreamParlor.mk
    [IceCreamFlavor.mk "Vanilla" 50; IceCreamFlavor.mk "Pistachio" 70]
    [Topping.mk "Syrup" 30]
    [Container.mk "Cup" 2 30; Container.mk "Cone" 3 10]
    [] None.

(** A portion put together from the menu of the parlor: its container,
    flavors and topping are listed, there is a count of at least one ball
    for each flavor, and the balls fit the container. *)
Definition portion_from_menu (self : IceCreamParlor.t) (p : Portion.t) : Prop :=
  Portion.container p ∈ IceCreamParlor.containers self
  /\ Forall (fun f => f ∈ IceCreamParlor.flavors self) (Portion.flavors p)
  /\ length (Portion.balls_count p) = length (Portion.flavors p)
  /\ Forall (fun b => 1 <= b) (Portion.balls_count p)
  /\ py_sum (Portion.balls_count p) <= Container.max_balls (Portion.container p)
  /\ match Portion.topping p with
     | Some tp => tp ∈ IceCreamParlor.topings self
     | None => True
     end.

(** ** The session: the parlor object, the store and the console *)

Record session : Type := mk_session {
  parlor : IceCreamParlor.t;
  store : world;
  stdin : list string
}.

Definition set_parlor (v : IceCreamParlor.t) (s : session) : session :=
  mk_session v (store s) (stdin s).
Definition set_store (v : world) (s : session) : session :=
  mk_session (parlor s) v (stdin s).
Definition set_stdin (v : list string) (s : session) : session :=
  mk_session (parlor s) (store s) v.

(** A method of the parlor.  [None] marks, as in [M], a call on a location
    that holds no object. *)
Definition IO (A : Type) : Type := session -> option (outcome A * session).

#[global] Instance IO_ret : MRet IO := fun A a s => Some (Returns a, s).

#[global] Instance IO_bind : MBind IO := fun A B f m s =>
  match m s with
  | None => None
  | Some (Returns a, s') => f a s'
  | Some (Raises e, s') => Some (Raises e, s')
  | Some (EOFError, s') => Some (EOFError, s')
  | Some (OutOfFuel, s') => Some (OutOfFuel, s')
  end.

(** A method of [Order] or [Shift] called from the parlor. *)
Definition lift_M {A : Type} (m : M A) : IO A := fun s =>
  match m (store s) with
  | None => None
  | Some (Ok a, w) => Some (Returns a, set_store w s)
  | Some (Raise e, w) => Some (Raises e, set_store w s)
  end.

(** A reading of the console from the parlor. *)
Definition lift_console {A : Type} (c : console A) : IO A := fun s =>
  let (o, rest) := c (stdin s) in Some (o, set_stdin rest s).

Definition get_self : IO IceCreamParlor.t := fun s => Some (Returns (parlor s), s).
Definition update_self (f : IceCreamParlor.t -> IceCreamParlor.t) : IO unit :=
  fun s => Some (Returns tt, set_parlor (f (parlor s)) s).
Definition get_stdin : IO (list string) := fun s => Some (Returns (stdin s), s).
Definition io_out_of_fuel {A : Type} : IO A := fun s => Some (OutOfFuel, s).

Section Session.

Variable int : string -> option Z.

(** [self.current_shift and self.current_shift.is_open]: a shift object is
    true, [None] is false, and [and] looks at [is_open] only for an
    object. *)
Definition current_shift_is_open : IO bool :=
  self ← get_self;
  match IceCreamParlor.current_shift self with
  | None => mret false
  | Some shift => lift_M (ShiftM.is_open shift)
  end.

(** The [while True] loop of [create_order]. *)
Fixpoint portions_loop (fuel : nat) (order : loc) : IO unit :=
  match fuel with
  | O => io_out_of_fuel
  | S fuel' =>
      self ← get_self;
      portion ← lift_console (create_portion int self);
      match portion with
      | Some portion => lift_M (OrderM.add_portion order portion)
      | None => mret tt
      end;;
      more ← lift_console _get_yes_no_input;
      if more : bool then portions_loop fuel' order else mret tt
  end.

(** [IceCreamParlor.create_order].  Each turn of its loop reads a line at
    least, so one turn more than there are lines is enough. *)
Definition create_order (now : instant) : IO unit :=
  open ← current_shift_is_open;
  if negb open then mret tt
  else
    order ← lift_M OrderM.init;
    lines ← get_stdin;
    portions_loop (S (length lines)) order;;
    o ← lift_M (get_order order);
    match Order.portions o with
    | _ :: _ =>
        self ← get_self;
        match IceCreamParlor.current_shift self with
        | Some shift => lift_M (ShiftM.add_order shift order now)
        | None => fun _ => None
        end
    | [] => mret tt
    end.

(** [IceCreamParlor._open_shift] *)
Definition _open_shift (now : instant) : IO unit :=
  open ← current_shift_is_open;
  if open : bool then mret tt
  else
    shift ← lift_M ShiftM.init;
    update_self (IceCreamParlor.set_current_shift (Some shift));;
    lift_M (ShiftM.open shift now);;
    self ← get_self;
    match IceCreamParlor.current_shift self with
    | Some current =>
        update_self (IceCreamParlor.set_shifts (IceCreamParlor.shifts self ++ [current]))
    | None => fun _ => None
    end.

(** [IceCreamParlor._close_shift] *)
Definition _close_shift (now : instant) : IO unit :=
  open ← current_shift_is_open;
  if negb open then mret tt
  else
    self ← get_self;
    match IceCreamParlor.current_shift self with
    | Some shift => lift_M (ShiftM.close shift now)
    | None => fun _ => None
    end;;
    update_self (IceCreamParlor.set_current_shift None).

End Session.

(** The shifts of the parlor as its methods keep them: each shift of the
    list is an object of the store, no shift is listed twice, the current
    shift is listed and open, and every other listed shift is closed. *)
Definition session_ok (s : session) : Prop :=
  NoDup (IceCreamParlor.shifts (parlor s))
  /\ (forall sl : loc, IceCreamParlor.current_shift (parlor s) = Some sl ->
        sl ∈ IceCreamParlor.shifts (parlor s))
  /\ (forall sl : loc, sl ∈ IceCreamParlor.shifts (parlor s) ->
        exists sh : Shift.t,
          shift_heap (store s) !! sl = Some sh
          /\ lifecycle_of sh
             = if decide (IceCreamParlor.current_shift (parlor s) = Some sl)
               then OPEN else CLOSED).

(** The session when [IceCreamParlor.__init__] has returned with the
    catalog of [demo_parlor], and the operator's lines are [lines]. *)
Definition demo_session (lines : list string) : session :=
  mk_session demo_parlor init_world lines.

(** A reading of the console hands back what is left of the lines it was
    given, never more. *)
Definition shrinks {A : Type} (c : console A) : Prop :=
  forall (lines rest : list string) (o : outcome A),
    c lines = (o, rest) -> (length rest <= length lines)%nat.

(** The store [w'] is the store [w] but for the order at [order], which
    has got more portions, all put together from the menu. *)
Definition order_grows (self : IceCreamParlor.t) (order : loc) (w w' : world) : Prop :=
  shift_heap w' = shift_heap w
  /\ order_counter w' = order_counter w
  /\ shift_counter w' = shift_counter w
  /\ (forall l : loc, l ≠ order -> order_heap w' !! l = order_heap w !! l)
  /\ exists (ord : Order.t) (extra : list Portion.t),
       order_heap w !! order = Some ord
       /\ order_heap w' !! order
          = Some (Order.set_portions (Order.portions ord ++ extra) ord)
       /\ Forall (portion_from_menu self) extra.

(** How [create_order] and the loop in it can end: they return, the input
    ends, or the constructor of [Portion] refuses a container of negative
    capacity. *)
Definition ends_well (self : IceCreamParlor.t) (o : outcome unit) (s' : session) : Prop :=
  o = Returns tt
  \/ (o = EOFError /\ stdin s' = [])
  \/ exists c : Container.t,
       c ∈ IceCreamParlor.containers self
       /\ Container.max_balls c < 0 /\ o = Raises (CapacityExceededError c).

(** The session after [_open_shift] at the instant 1. *)
Definition demo_open_session (lines : list string) : session :=
  mk_session
    (IceCreamParlor.set_shifts [0%nat]
       (IceCreamParlor.set_current_shift (Some 0%nat) demo_parlor))
    (mk_world 0 1 ∅ {[ 0%nat := Shift.mk 1 (Some 1) None [] ]}) lines.

(** ** The lines of the menu: [__repr__] of the catalog items *)

(** [fill * n] *)
Fixpoint str_repeat (fill : ascii) (n : nat) : string :=
  match n with
  | O => EmptyString
  | S n' => String fill (str_repeat fill n')
  end.

(** The format specification [fill<width]: the text, then the fill up to
    the width; a longer text is not cut. *)
Definition format_left (fill : ascii) (width : nat) (s : string) : string :=
  s +:+ str_repeat fill (width - String.length s).

(** The format specification [fill>width]: the fill up to the width, then
    the text. *)
Definition format_right (fill : ascii) (width : nat) (s : string) : string :=
  str_repeat fill (width - String.length s) +:+ s.

(** [Topping.__repr__]: f"{self.name:.<30}{self.price:.>10}" *)
Definition Topping_repr (self : Topping.t) : string :=
  format_left "."%char 30 (Topping.name self)
    +:+ format_right "."%char 10 (pretty (Topping.price self)).

(** [IceCreamFlavor.__repr__]: f"{self.name:.<30}{self.price_per_ball:.>10}" *)
Definition IceCreamFlavor_repr (self : IceCreamFlavor.t) : string :=
  format_left "."%char 30 (IceCreamFlavor.name self)
    +:+ format_right "."%char 10 (pretty (IceCreamFlavor.price_per_ball self)).

(** [Container.__repr__]:
    f"{self.type_name:<25} (cap. {self.max_balls}){self.base_price:.>6}" *)
Definition Container_repr (self : Container.t) : string :=
  format_left " "%char 25 (Container.type_name self)
    +:+ " (cap. " +:+ pretty (Container.max_balls self) +:+ ")"
    +:+ format_right "."%char 6 (pretty (Container.base_price self)).

(** ** Facts about [sum] *)

Lemma fold_left_add_acc (l : list Z) (a : Z) :
  fold_left Z.add l a = a + fold_left Z.add l 0.
Proof.
  revert a. induction l as [|x l IH]; intros a; simpl.
  - lia.
  - rewrite (IH (a + x)), (IH (0 + x)). lia.
Qed.

Lemma py_sum_cons (x : Z) (l : list Z) : py_sum (x :: l) = x + py_sum l.
Proof. unfold py_sum. simpl. apply fold_left_add_acc. Qed.

Lemma py_sum_counts (L : list (IceCreamFlavor.t * Z)) :
  py_sum (map snd L) = counts_total L.
Proof.
  induction L as [|[f n] L IH]; simpl.
  - reflexivity.
  - rewrite py_sum_cons, IH. reflexivity.
Qed.

Lemma py_sum_lines (lines : list (IceCreamFlavor.t * Z)) :
  py_sum (map (fun '(flavor, count) => IceCreamFlavor.price_per_ball flavor * count) lines)
  = lines_price lines.
Proof.
  induction lines as [|[f n] lines IH]; simpl.
  - reflexivity.
  - rewrite py_sum_cons, IH. reflexivity.
Qed.

(** ** Portion construction *)

Lemma init_length_mismatch fl bc c tp :
  length bc ≠ length fl ->
  Portion.init fl bc c tp = Raise (ValueError Portion.msg_quantity).
Proof.
  intros Hne. unfold Portion.init.
  destruct (Nat.eqb_spec (length bc) (length fl)) as [Heq|_]; [contradiction | reflexivity].
Qed.

Lemma init_same_length fl bc c tp :
  length bc = length fl ->
  Portion.init fl bc c tp =
    if py_sum bc >? Container.max_balls c
    then Raise (ValueError (Portion.msg_maximum c))
    else Ok (Portion.mk fl bc c tp).
Proof.
  intros Heq. unfold Portion.init.
  destruct (Nat.eqb_spec (length bc) (length fl)) as [_|Hne]; [reflexivity | contradiction].
Qed.

Lemma init_pairs (C : Container.t) (L : list (IceCreamFlavor.t * Z)) tp :
  Portion.init (map fst L) (map snd L) C tp =
    if counts_total L >? Container.max_balls C
    then Raise (CapacityExceededError C)
    else Ok (Portion.mk (map fst L) (map snd L) C tp).
Proof.
  rewrite init_same_length by (by rewrite !length_map).
  by rewrite py_sum_counts.
Qed.

Lemma combine_split_same_length {A B : Type} (la : list A) (lb : list B) :
  length lb = length la ->
  map fst (combine la lb) = la /\ map snd (combine la lb) = lb.
Proof.
  revert lb. induction la as [|a la IH]; intros [|b lb] Hlen; simpl in *;
    try discriminate; [done|].
  destruct (IH lb) as [H1 H2]; [lia|]. by rewrite H1, H2.
Qed.

Lemma init_ok_inv fl bc c tp p :
  Portion.init fl bc c tp = Ok p ->
  length bc = length fl /\ py_sum bc <= Container.max_balls c /\
  p = Portion.mk fl bc c tp.
Proof.
  unfold Portion.init.
  destruct (Nat.eqb_spec (length bc) (length fl)) as [Heq|Hne]; simpl; [|discriminate].
  destruct (Z.gtb_spec (py_sum bc) (Container.max_balls c)); [discriminate|].
  intros [= <-]. repeat split; [done | lia].
Qed.

(** C8.  Whenever the list of ball counts and the list of flavors differ in
    length, the constructor raises the error of the composition check, the
    first check it makes: the counts, and so their sum, are never looked
    at. *)
Theorem portion_length_mismatch_rejected
    (fl : list IceCreamFlavor.t) (bc : list Z) (c : Container.t)
    (tp : option Topping.t) :
  length bc ≠ length fl ->
  Portion.init fl bc c tp = Raise InvalidCompositionError.
Proof. apply init_length_mismatch. Qed.

Lemma portion_length_mismatch_rejected_witness :
  let vanilla := IceCreamFlavor.mk "Vanilla" 80 in
  let cup := Container.mk "Cup" 3 30 in
  length [1; 1] ≠ length [vanilla] /\
  Portion.init [vanilla] [1; 1] cup None = Raise InvalidCompositionError.
Proof.
  simpl. split; [discriminate|].
  apply (portion_length_mismatch_rejected
           [IceCreamFlavor.mk "Vanilla" 80] [1; 1] (Container.mk "Cup" 3 30) None).
  discriminate.
Defined.

(** C1, as the specification states it, fails: an empty composition and a
    composition with a count of zero are both accepted by the constructor,
    although neither satisfies [1 ≤ Σcounts] with every count ≥ 1. *)
Lemma portion_init_accepts_empty_and_zero :
  let vanilla := IceCreamFlavor.mk "Vanilla" 80 in
  let cup := Container.mk "Cup" 2 30 in
  let empty : list (IceCreamFlavor.t * Z) := [] in
  (Portion.init (map fst empty) (map snd empty) cup None = Ok (Portion.mk [] [] cup None)
   /\ ~ spec_valid_composition cup empty)
  /\ (Portion.init (map fst [(vanilla, 0)]) (map snd [(vanilla, 0)]) cup None
        = Ok (Portion.mk [vanilla] [0] cup None)
      /\ ~ spec_valid_composition cup [(vanilla, 0)])
  /\ ~ (forall (C : Container.t) (L : list (IceCreamFlavor.t * Z)) (tp : option Topping.t),
          (exists p, Portion.init (map fst L) (map snd L) C tp = Ok p)
          <-> spec_valid_composition C L).
Proof.
  cbv zeta. split; [|split].
  - split; [reflexivity|]. unfold spec_valid_composition. simpl. lia.
  - split; [reflexivity|]. unfold spec_valid_composition. simpl. lia.
  - intros H.
    destruct (H (Container.mk "Cup" 2 30) [] None) as [Hto _].
    assert (Hv : spec_valid_composition (Container.mk "Cup" 2 30) []).
    { apply Hto. eexists. reflexivity. }
    unfold spec_valid_composition in Hv. simpl in Hv. lia.
Qed.

(** C1, amended.  For a list of (flavor, count) pairs the constructor
    succeeds exactly when the sum of the counts is at most
    [container.max_balls], and then stores the composition as given; it
    fails exactly when the sum exceeds [container.max_balls], with the
    capacity error.  Neither an empty list nor a count ≤ 0 is rejected. *)
Theorem portion_init_pairs_capacity
    (C : Container.t) (L : list (IceCreamFlavor.t * Z)) (tp : option Topping.t) :
  (Portion.init (map fst L) (map snd L) C tp
     = Ok (Portion.mk (map fst L) (map snd L) C tp)
   <-> counts_total L <= Container.max_balls C)
  /\ (Portion.init (map fst L) (map snd L) C tp = Raise (CapacityExceededError C)
      <-> Container.max_balls C < counts_total L).
Proof.
  rewrite init_pairs.
  destruct (Z.gtb_spec (counts_total L) (Container.max_balls C)) as [Hgt|Hle].
  - split; split; try discriminate; try lia. done.
  - split; split; try discriminate; try lia. done.
Qed.

(** C2.  The price of a portion the constructor accepted is the base price
    of its container, plus the sum over its lines of the flavor's price per
    ball times the line's count, plus the price of the topping when there is
    one; the lines are exactly the flavors and the counts handed to the
    constructor.  [Portion.total_price] is a function of the portion alone
    into the integers: it reads no store and leaves none behind. *)
Theorem portion_total_price_exact
    (fl : list IceCreamFlavor.t) (bc : list Z) (c : Container.t)
    (tp : option Topping.t) (p : Portion.t) :
  Portion.init fl bc c tp = Ok p ->
  Portion.total_price p
    = Container.base_price c + lines_price (combine fl bc) + topping_price_or_0 tp
  /\ map fst (combine fl bc) = fl /\ map snd (combine fl bc) = bc.
Proof.
  intros Hinit. apply init_ok_inv in Hinit as (Hlen & _ & ->).
  split; [|by apply combine_split_same_length].
  unfold Portion.total_price. simpl. rewrite py_sum_lines.
  destruct tp; simpl; lia.
Qed.

Lemma portion_total_price_exact_witness :
  let a := IceCreamFlavor.mk "A" 80 in
  let b := IceCreamFlavor.mk "B" 100 in
  let cup := Container.mk "Cup" 3 50 in
  let syrup := Topping.mk "Syrup" 30 in
  let p := Portion.mk [a; b] [2; 1] cup (Some syrup) in
  Portion.init [a; b] [2; 1] cup (Some syrup) = Ok p /\
  Portion.total_price p = 340.
Proof.
  cbv zeta. split; [reflexivity|].
  destruct (portion_total_price_exact
              [IceCreamFlavor.mk "A" 80; IceCreamFlavor.mk "B" 100] [2; 1]
              (Container.mk "Cup" 3 50) (Some (Topping.mk "Syrup" 30))
              (Portion.mk [IceCreamFlavor.mk "A" 80; IceCreamFlavor.mk "B" 100] [2; 1]
                 (Container.mk "Cup" 3 50) (Some (Topping.mk "Syrup" 30))))
    as [Hprice _]; [reflexivity|].
  rewrite Hprice. reflexivity.
Defined.

(** ** The methods, one equation each *)

Ltac unfold_M :=
  unfold mbind, M_bind, mret, M_ret, raise, get_world, modify_world,
    get_order, update_order, alloc_order, get_shift, update_shift, alloc_shift.

Lemma bind_eq {A B : Type} (m : M A) (f : A -> M B) (w : world) :
  (m ≫= f) w =
    match m w with
    | None => None
    | Some (Ok a, w') => f a w'
    | Some (Raise e, w') => Some (Raise e, w')
    end.
Proof. reflexivity. Qed.

Lemma order_init_eq (w : world) :
  OrderM.init w =
    let l := fresh (dom (order_heap w)) in
    Some (Ok l,
          mk_world (order_counter w + 1) (shift_counter w)
            (<[l := Order.mk (order_counter w + 1) [] false None]> (order_heap w))
            (shift_heap w)).
Proof. reflexivity. Qed.

Lemma order_total_price_eq (self : loc) (w : world) :
  OrderM.total_price self w =
    match order_heap w !! self with
    | Some o => Some (Ok (py_sum (map Portion.total_price (Order.portions o))), w)
    | None => None
    end.
Proof. unfold OrderM.total_price. unfold_M. by destruct (order_heap w !! self). Qed.

Lemma order_add_portion_eq (self : loc) (p : Portion.t) (w : world) :
  OrderM.add_portion self p w =
    match order_heap w !! self with
    | Some o =>
        Some (Ok tt,
              set_order_heap
                (<[self := Order.set_portions (Order.portions o ++ [p]) o]> (order_heap w)) w)
    | None => None
    end.
Proof.
  unfold OrderM.add_portion. unfold_M.
  destruct (order_heap w !! self) eqn:Hl; [|done]. by rewrite Hl.
Qed.

Lemma order_pay_eq (self : loc) (now : instant) (w : world) :
  OrderM.pay self now w =
    match order_heap w !! self with
    | Some o =>
        match Order.portions o with
        | [] => Some (Raise EmptyOrderError, w)
        | _ :: _ =>
            Some (Ok tt, set_order_heap (<[self := stamped now o]> (order_heap w)) w)
        end
    | None => None
    end.
Proof.
  unfold OrderM.pay. unfold_M.
  destruct (order_heap w !! self) as [o|] eqn:Hl; [|done].
  destruct (Order.portions o) eqn:Hp; [done|].
  rewrite Hl. simpl. rewrite lookup_insert_eq. unfold set_order_heap. simpl.
  by rewrite insert_insert_eq.
Qed.

Lemma shift_init_eq (w : world) :
  ShiftM.init w =
    let l := fresh (dom (shift_heap w)) in
    Some (Ok l,
          mk_world (order_counter w) (shift_counter w + 1) (order_heap w)
            (<[l := Shift.mk (shift_counter w + 1) None None []]> (shift_heap w))).
Proof. reflexivity. Qed.

Lemma shift_is_open_eq (self : loc) (w : world) :
  ShiftM.is_open self w =
    match shift_heap w !! self with
    | Some s => Some (Ok (ShiftM.is_open_of s), w)
    | None => None
    end.
Proof. unfold ShiftM.is_open. unfold_M. by destruct (shift_heap w !! self). Qed.

Lemma shift_open_eq (self : loc) (now : instant) (w : world) :
  ShiftM.open self now w =
    match shift_heap w !! self with
    | Some s =>
        if ShiftM.is_open_of s then Some (Ok tt, w)
        else match Shift.end_time s with
             | Some _ => Some (Raise ReopenClosedShiftError, w)
             | None =>
                 Some (Ok tt,
                       set_shift_heap
                         (<[self := Shift.set_start_time (Some now) s]> (shift_heap w)) w)
             end
    | None => None
    end.
Proof.
  unfold ShiftM.open, ShiftM.is_open. unfold_M.
  destruct (shift_heap w !! self) as [s|] eqn:Hl; [|done].
  destruct (ShiftM.is_open_of s); [done|]. rewrite Hl.
  destruct (Shift.end_time s); [done|]. by rewrite Hl.
Qed.

Lemma shift_close_eq (self : loc) (now : instant) (w : world) :
  ShiftM.close self now w =
    match shift_heap w !! self with
    | Some s =>
        if ShiftM.is_open_of s
        then Some (Ok tt,
                   set_shift_heap
                     (<[self := Shift.set_end_time (Some now) s]> (shift_heap w)) w)
        else Some (Raise ShiftNotOpenError_close, w)
    | None => None
    end.
Proof.
  unfold ShiftM.close, ShiftM.is_open. unfold_M.
  destruct (shift_heap w !! self) as [s|] eqn:Hl; [|done].
  destruct (ShiftM.is_open_of s); simpl; [|done]. by rewrite Hl.
Qed.

Lemma shift_add_order_eq (self order : loc) (now : instant) (w : world) :
  ShiftM.add_order self order now w =
    match shift_heap w !! self with
    | Some s =>
        if ShiftM.is_open_of s then
          match OrderM.pay order now w with
          | Some (Ok _, w1) =>
              Some (Ok tt,
                    set_shift_heap
                      (<[self := Shift.set_orders (Shift.orders s ++ [order]) s]>
                         (shift_heap w)) w1)
          | Some (Raise e, w1) => Some (Raise e, w1)
          | None => None
          end
        else Some (Raise ShiftNotOpenError_add, w)
    | None => None
    end.
Proof.
  unfold ShiftM.add_order. rewrite bind_eq, shift_is_open_eq.
  destruct (shift_heap w !! self) as [s|] eqn:Hl; [|done].
  destruct (ShiftM.is_open_of s); simpl; [|done].
  rewrite bind_eq, order_pay_eq.
  destruct (order_heap w !! order) as [o|]; [|done].
  destruct (Order.portions o); [done|].
  rewrite bind_eq. unfold get_shift, update_shift, set_order_heap. simpl.
  rewrite Hl. simpl. by rewrite Hl.
Qed.

Lemma shift_add_order_cases (self order : loc) (now : instant) (w : world) :
  ShiftM.add_order self order now w =
    match shift_heap w !! self with
    | Some s =>
        if ShiftM.is_open_of s then
          match order_heap w !! order with
          | Some o =>
              match Order.portions o with
              | [] => Some (Raise EmptyOrderError, w)
              | _ :: _ =>
                  Some (Ok tt,
                        set_shift_heap
                          (<[self := Shift.set_orders (Shift.orders s ++ [order]) s]>
                             (shift_heap w))
                          (set_order_heap (<[order := stamped now o]> (order_heap w)) w))
              end
          | None => None
          end
        else Some (Raise ShiftNotOpenError_add, w)
    | None => None
    end.
Proof.
  rewrite shift_add_order_eq, order_pay_eq.
  destruct (shift_heap w !! self) as [s|]; [|done].
  destruct (ShiftM.is_open_of s); [|done].
  destruct (order_heap w !! order) as [o|]; [|done].
  by destruct (Order.portions o).
Qed.

Lemma sum_total_prices_prices (w : world) (os : list loc) (prices : list Z) (acc : Z) :
  prices_of w os prices ->
  ShiftM.sum_total_prices os acc w = Some (Ok (acc + sum_Z prices), w).
Proof.
  intros H. revert acc. induction H as [|o p os prices Ho _ IH]; intros acc; simpl.
  - unfold mret, M_ret. do 3 f_equal. lia.
  - unfold mbind, M_bind. rewrite Ho, IH. do 3 f_equal. lia.
Qed.

Lemma prices_of_valid (w : world) (os : list loc) :
  (forall o, o ∈ os -> is_Some (order_heap w !! o)) ->
  exists prices, prices_of w os prices.
Proof.
  induction os as [|o os IH]; intros Hv.
  - exists []. constructor.
  - destruct IH as [prices Hp]; [intros; apply Hv; by right|].
    destruct (Hv o) as [x Hx]; [by left|].
    exists (py_sum (map Portion.total_price (Order.portions x)) :: prices).
    constructor; [|done]. by rewrite order_total_price_eq, Hx.
Qed.

Lemma shift_revenue_eq (self : loc) (w : world) :
  ShiftM.revenue self w =
    match shift_heap w !! self with
    | Some s => ShiftM.sum_total_prices (Shift.orders s) 0 w
    | None => None
    end.
Proof. unfold ShiftM.revenue. unfold_M. by destruct (shift_heap w !! self). Qed.

Lemma sum_total_prices_store (os : list loc) (acc : Z) (w w' : world) (r : result Z) :
  ShiftM.sum_total_prices os acc w = Some (r, w') -> w' = w.
Proof.
  revert acc. induction os as [|o os IH]; intros acc; simpl.
  - unfold mret, M_ret. by intros [= _ <-].
  - unfold mbind, M_bind. rewrite order_total_price_eq.
    destruct (order_heap w !! o); [|done]. apply IH.
Qed.

Lemma shift_revenue_store (self : loc) (w w' : world) (r : result Z) :
  ShiftM.revenue self w = Some (r, w') -> w' = w.
Proof.
  rewrite shift_revenue_eq. destruct (shift_heap w !! self); [|done].
  apply sum_total_prices_store.
Qed.

(** ** What one call does to the store *)

Lemma bind_ret_inv {A : Type} (m : M A) (f : A -> value) (w w' : world)
    (r : result value) :
  (m ≫= fun x => mret (f x)) w = Some (r, w') ->
  exists r0, m w = Some (r0, w') /\
    r = match r0 with Ok a => Ok (f a) | Raise e => Raise e end.
Proof.
  rewrite bind_eq. destruct (m w) as [[[a|e] w1]|]; [| |done].
  - unfold mret, M_ret. intros [= <- <-]. by exists (Ok a).
  - intros [= <- <-]. by exists (Raise e).
Qed.

Ltac split_matches H :=
  repeat match type of H with
         | context [match ?x with _ => _ end] => destruct x eqn:?
         | context [if ?x then _ else _] => destruct x eqn:?
         end;
  simplify_eq.

Ltac invert_call H :=
  simpl in H; apply bind_ret_inv in H as (? & H & ->);
  first [ rewrite order_init_eq in H
        | rewrite order_add_portion_eq in H
        | rewrite order_pay_eq in H
        | rewrite order_total_price_eq in H
        | rewrite shift_init_eq in H
        | rewrite shift_open_eq in H
        | rewrite shift_close_eq in H
        | rewrite shift_add_order_cases in H
        | rewrite shift_is_open_eq in H
        | apply shift_revenue_store in H; subst ];
  try (cbv zeta in H; split_matches H).

(** Two lookups of one location give one object. *)
Ltac same_object :=
  match goal with
  | H1 : ?m !! ?k = Some ?a, H2 : ?m !! ?k = Some ?b |- _ =>
      assert (a = b) by congruence; subst a; clear H1
  end.

Lemma settled_set_portions (v : list Portion.t) (o : Order.t) :
  settled o -> settled (Order.set_portions v o).
Proof. by intros [? ?]. Qed.

Lemma settled_stamped (now : instant) (o : Order.t) : settled (stamped now o).
Proof. split; [done|]. by exists now. Qed.

(** Order objects stay where they are, and a paid order stays paid. *)
Lemma run_call_orders (c : call) (w w' : world) (r : result value) :
  run_call c w = Some (r, w') ->
  forall (l : loc) (o : Order.t), order_heap w !! l = Some o ->
    exists o', order_heap w' !! l = Some o' /\ (settled o -> settled o').
Proof.
  intros H.
  destruct c; invert_call H; simpl; intros xl xo Hx; eauto.
  - (* NewOrder *)
    exists xo. split; [|done]. rewrite lookup_insert_ne; [done|].
    intros Heq. apply (is_fresh (dom (order_heap w))). rewrite Heq.
    apply elem_of_dom. eauto.
  - (* AddPortion *)
    destruct (decide (order = xl)) as [->|Hne].
    + rewrite lookup_insert_eq. eexists; split; [done|].
      same_object. apply settled_set_portions.
    + rewrite lookup_insert_ne by done. eauto.
  - (* Pay *)
    destruct (decide (order = xl)) as [->|Hne].
    + rewrite lookup_insert_eq. eexists; split; [done|].
      intros _. apply settled_stamped.
    + rewrite lookup_insert_ne by done. eauto.
  - (* AddOrder *)
    destruct (decide (order = xl)) as [->|Hne].
    + rewrite lookup_insert_eq. eexists; split; [done|].
      intros _. apply settled_stamped.
    + rewrite lookup_insert_ne by done. eauto.
Qed.

(** Shift objects stay where they are; [orders] grows by what [add_order]
    accepted; an end time, once set, stays, and so does the start time
    under it. *)
Lemma run_call_shifts (c : call) (w w' : world) (r : result value) :
  run_call c w = Some (r, w') ->
  forall (sl : loc) (s : Shift.t), shift_heap w !! sl = Some s ->
    exists s', shift_heap w' !! sl = Some s' /\
      Shift.orders s' = Shift.orders s ++ accepted c r sl /\
      (is_Some (Shift.end_time s) ->
         Shift.end_time s' = Shift.end_time s /\
         Shift.start_time s' = Shift.start_time s).
Proof.
  intros H.
  destruct c; invert_call H; simpl; intros xl xs Hx;
    try (exists xs; rewrite ?app_nil_r; by eauto).
  - (* NewShift *)
    exists xs. rewrite app_nil_r. split; [|done].
    rewrite lookup_insert_ne; [done|].
    intros Heq. apply (is_fresh (dom (shift_heap w))). rewrite Heq.
    apply elem_of_dom. eauto.
  - (* Open, start time set *)
    destruct (decide (shift = xl)) as [->|Hne].
    + rewrite lookup_insert_eq. eexists; split; [done|]. same_object.
      simpl. rewrite app_nil_r. split; [done|].
      intros [x Hxe]. congruence.
    + rewrite lookup_insert_ne by done. exists xs. by rewrite app_nil_r.
  - (* Close, end time set *)
    destruct (decide (shift = xl)) as [->|Hne].
    + rewrite lookup_insert_eq. eexists; split; [done|]. same_object.
      simpl. rewrite app_nil_r. split; [done|].
      intros [x Hxe]. unfold ShiftM.is_open_of in *.
      destruct (Shift.start_time xs), (Shift.end_time xs); simplify_eq.
    + rewrite lookup_insert_ne by done. exists xs. by rewrite app_nil_r.
  - (* AddOrder, accepted *)
    destruct (decide (shift = xl)) as [->|Hne].
    + rewrite lookup_insert_eq. eexists; split; [done|]. same_object.
      simpl. split; [done|]. intros [x Hxe]. unfold ShiftM.is_open_of in *.
      destruct (Shift.start_time xs), (Shift.end_time xs); simplify_eq.
    + rewrite lookup_insert_ne by done. exists xs. by rewrite app_nil_r.
Qed.

(** A shift object that appears is a new one, with no orders. *)
Lemma run_call_new_shift (c : call) (w w' : world) (r : result value) :
  run_call c w = Some (r, w') ->
  forall (sl : loc) (s' : Shift.t),
    shift_heap w !! sl = None -> shift_heap w' !! sl = Some s' ->
    Shift.orders s' = [].
Proof.
  intros H.
  destruct c; invert_call H; simpl in *; intros xl xs Hn Hs; try congruence.
  - destruct (decide (fresh (dom (shift_heap w)) = xl)) as [Heq|Hne].
    + rewrite Heq, lookup_insert_eq in Hs. by simplify_eq.
    + rewrite lookup_insert_ne in Hs by done. congruence.
  - destruct (decide (shift = xl)) as [->|Hne]; [congruence|].
    rewrite lookup_insert_ne in Hs by done. congruence.
  - destruct (decide (shift = xl)) as [->|Hne]; [congruence|].
    rewrite lookup_insert_ne in Hs by done. congruence.
  - destruct (decide (shift = xl)) as [->|Hne]; [congruence|].
    rewrite lookup_insert_ne in Hs by done. congruence.
Qed.

(** The order that [add_order] accepted is paid. *)
Lemma run_call_accepted (c : call) (w w' : world) (r : result value) (sl ol : loc) :
  run_call c w = Some (r, w') -> ol ∈ accepted c r sl ->
  exists o', order_heap w' !! ol = Some o' /\ settled o'.
Proof.
  intros H Hin.
  destruct c; try (by apply elem_of_nil in Hin).
  invert_call H; simpl in Hin; try (by apply elem_of_nil in Hin).
  destruct (decide (shift = sl)) as [->|Hne]; [|by apply elem_of_nil in Hin].
  apply list_elem_of_singleton in Hin as ->. simpl.
  rewrite lookup_insert_eq. eexists; split; [done|]. apply settled_stamped.
Qed.

Lemma orders_paid_call (c : call) (w w' : world) (r : result value) :
  orders_paid w -> run_call c w = Some (r, w') -> orders_paid w'.
Proof.
  intros Hinv H sl s' Hs' ol Hol.
  assert (Hgoal : exists o', order_heap w' !! ol = Some o' /\ settled o').
  { destruct (shift_heap w !! sl) as [s|] eqn:Hs.
    - destruct (run_call_shifts _ _ _ _ H sl s Hs) as (s2 & Hs2 & Hord & _).
      simplify_eq. rewrite Hord in Hol. apply elem_of_app in Hol as [Hold|Hnew].
      + destruct (Hinv sl s Hs ol Hold) as (o & Ho & Hp & Ht).
        destruct (run_call_orders _ _ _ _ H ol o Ho) as (o' & Ho' & Hset).
        exists o'. split; [done|]. apply Hset. by split.
      + by apply (run_call_accepted _ _ _ _ _ _ H Hnew).
    - rewrite (run_call_new_shift _ _ _ _ H sl s' Hs Hs') in Hol.
      by apply elem_of_nil in Hol. }
  destruct Hgoal as (o' & Ho' & Hp & Ht). eauto.
Qed.

Lemma orders_paid_init : orders_paid init_world.
Proof. intros sl s Hs. simpl in Hs. by rewrite lookup_empty in Hs. Qed.

Lemma orders_paid_reachable (w : world) : reachable w -> orders_paid w.
Proof.
  induction 1 as [|w c r w' _ IH Hc]; [apply orders_paid_init|].
  by apply (orders_paid_call c w w' r).
Qed.

Lemma reachable_run_calls (cs : list call) (w w' : world) :
  reachable w -> run_calls cs w = Some w' -> reachable w'.
Proof.
  revert w. induction cs as [|c cs IH]; intros w Hr; simpl.
  - by intros [= <-].
  - destruct (run_call c w) as [[r w1]|] eqn:Hc; [|done].
    apply IH. by apply (reachable_call w c r w1).
Qed.

(** ** Paying an order *)

Lemma stamped_eq (now : instant) (o : Order.t) :
  stamped now o = Order.mk (Order.number o) (Order.portions o) true (Some now).
Proof. reflexivity. Qed.

(** C3, as the specification states it, fails: [pay] on an order with a
    portion returns at the instant 10 and returns again at the instant 20,
    with the time of payment overwritten. *)
Lemma order_pay_succeeds_twice :
  let paid_at t :=
    mk_world 1 0 {[ 0%nat := Order.mk 1 [demo_portion] true (Some t) ]} ∅ in
  OrderM.pay 0%nat 10 demo_order_world = Some (Ok tt, paid_at 10)
  /\ OrderM.pay 0%nat 20 (paid_at 10) = Some (Ok tt, paid_at 20)
  /\ ~ pays_at_most_once demo_order_world 0%nat.
Proof.
  cbv zeta.
  assert (H1 : OrderM.pay 0%nat 10 demo_order_world
               = Some (Ok tt, mk_world 1 0
                   {[ 0%nat := Order.mk 1 [demo_portion] true (Some 10) ]} ∅))
    by reflexivity.
  assert (H2 : OrderM.pay 0%nat 20
                 (mk_world 1 0 {[ 0%nat := Order.mk 1 [demo_portion] true (Some 10) ]} ∅)
               = Some (Ok tt, mk_world 1 0
                   {[ 0%nat := Order.mk 1 [demo_portion] true (Some 20) ]} ∅))
    by reflexivity.
  split; [exact H1|]. split; [exact H2|].
  intros Honce. destruct (Honce 10 20 _ _ (Ok tt) H1 H2) as [e He]. discriminate.
Qed.

(** C3, amended.  [pay] on an order with zero portions raises the error of
    the empty order and changes nothing.  On an order with at least one
    portion every call of [pay] returns, whether or not the order was paid
    before: it sets [paid] and records the instant of the call as the time
    of payment, leaving the number and the portions as they were; a further
    call returns as well and overwrites the time. *)
Theorem order_pay_outcome
    (w : world) (order : loc) (o : Order.t) (now : instant) :
  order_heap w !! order = Some o ->
  (Order.portions o = [] ->
     OrderM.pay order now w = Some (Raise EmptyOrderError, w))
  /\ (Order.portions o ≠ [] ->
      let o' := Order.mk (Order.number o) (Order.portions o) true (Some now) in
      let w' := set_order_heap (<[order := o']> (order_heap w)) w in
      OrderM.pay order now w = Some (Ok tt, w')
      /\ forall now2 : instant,
           let o'' := Order.mk (Order.number o) (Order.portions o) true (Some now2) in
           OrderM.pay order now2 w'
             = Some (Ok tt, set_order_heap (<[order := o'']> (order_heap w)) w)).
Proof.
  intros Hl. split.
  - intros Hp. by rewrite order_pay_eq, Hl, Hp.
  - intros Hp. cbv zeta. split.
    + rewrite order_pay_eq, Hl, stamped_eq.
      by destruct (Order.portions o) eqn:Hpo.
    + intros now2. rewrite order_pay_eq. simpl. rewrite lookup_insert_eq. simpl.
      rewrite stamped_eq. simpl.
      destruct (Order.portions o) eqn:Hpo; [done|].
      unfold set_order_heap. simpl. by rewrite insert_insert_eq.
Qed.

Lemma order_pay_outcome_witness :
  order_heap demo_order_world !! 0%nat = Some (Order.mk 1 [demo_portion] false None)
  /\ OrderM.pay 0%nat 10 demo_order_world
     = Some (Ok tt,
             mk_world 1 0 {[ 0%nat := Order.mk 1 [demo_portion] true (Some 10) ]} ∅)
  /\ order_heap demo_shift_world !! 0%nat = Some (Order.mk 1 [] false None)
  /\ OrderM.pay 0%nat 10 demo_shift_world = Some (Raise EmptyOrderError, demo_shift_world).
Proof.
  split; [reflexivity|]. split.
  - destruct (order_pay_outcome demo_order_world 0%nat
                (Order.mk 1 [demo_portion] false None) 10 eq_refl) as [_ Hpay].
    destruct Hpay as [Hpay _]; [discriminate|].
    rewrite Hpay. reflexivity.
  - split; [reflexivity|].
    destruct (order_pay_outcome demo_shift_world 0%nat
                (Order.mk 1 [] false None) 10 eq_refl) as [Hpay _].
    apply Hpay. reflexivity.
Defined.

(** ** Adding an order to a shift *)

(** C6.  [add_order] on a shift that is not open raises the error of the
    shift that is not open and changes nothing.  It returns only on an open
    shift, and then the store is the one [Order.pay] left, with the order
    appended to the end of the shift's [orders]: the order is paid first and
    appended second.  On an open shift it returns whenever [pay] does. *)
Theorem shift_add_order_pays_then_appends
    (w : world) (shift order : loc) (s : Shift.t) (now : instant) :
  shift_heap w !! shift = Some s ->
  (ShiftM.is_open_of s = false ->
     ShiftM.add_order shift order now w = Some (Raise ShiftNotOpenError_add, w))
  /\ (forall w' : world,
        ShiftM.add_order shift order now w = Some (Ok tt, w') ->
        ShiftM.is_open_of s = true /\
        exists w1 : world,
          OrderM.pay order now w = Some (Ok tt, w1) /\
          w' = set_shift_heap
                 (<[shift := Shift.set_orders (Shift.orders s ++ [order]) s]>
                    (shift_heap w1)) w1)
  /\ (forall w1 : world,
        ShiftM.is_open_of s = true ->
        OrderM.pay order now w = Some (Ok tt, w1) ->
        ShiftM.add_order shift order now w
          = Some (Ok tt,
                  set_shift_heap
                    (<[shift := Shift.set_orders (Shift.orders s ++ [order]) s]>
                       (shift_heap w1)) w1)).
Proof.
  intros Hs. rewrite shift_add_order_eq, Hs. split; [|split].
  - by intros ->.
  - intros w' H. destruct (ShiftM.is_open_of s); [|done]. split; [done|].
    rewrite order_pay_eq in *.
    destruct (order_heap w !! order) as [o|]; [|done].
    destruct (Order.portions o); [done|].
    eexists. split; [done|]. by simplify_eq.
  - intros w1 -> Hpay. rewrite Hpay.
    rewrite order_pay_eq in Hpay.
    destruct (order_heap w !! order) as [o|]; [|done].
    destruct (Order.portions o); [done|]. by simplify_eq.
Qed.

Lemma shift_add_order_pays_then_appends_witness :
  shift_heap demo_open_world !! 0%nat = Some (Shift.mk 1 (Some 1) None [])
  /\ ShiftM.add_order 0%nat 0%nat 2 demo_open_world
     = Some (Ok tt,
             mk_world 1 1 {[ 0%nat := Order.mk 1 [demo_portion] true (Some 2) ]}
               {[ 0%nat := Shift.mk 1 (Some 1) None [0%nat] ]})
  /\ shift_heap demo_shift_world !! 0%nat = Some (Shift.mk 1 None None [])
  /\ ShiftM.add_order 0%nat 0%nat 2 demo_shift_world
     = Some (Raise ShiftNotOpenError_add, demo_shift_world).
Proof.
  assert (Hs1 : shift_heap demo_open_world !! 0%nat = Some (Shift.mk 1 (Some 1) None []))
    by reflexivity.
  assert (Hs2 : shift_heap demo_shift_world !! 0%nat = Some (Shift.mk 1 None None []))
    by reflexivity.
  assert (Hpay : OrderM.pay 0%nat 2 demo_open_world
                 = Some (Ok tt,
                         mk_world 1 1
                           {[ 0%nat := Order.mk 1 [demo_portion] true (Some 2) ]}
                           {[ 0%nat := Shift.mk 1 (Some 1) None [] ]}))
    by reflexivity.
  split; [exact Hs1|]. split; [|split; [exact Hs2|]].
  - destruct (shift_add_order_pays_then_appends demo_open_world 0%nat 0%nat _ 2 Hs1)
      as (_ & _ & Happ).
    rewrite (Happ _ eq_refl Hpay). reflexivity.
  - destruct (shift_add_order_pays_then_appends demo_shift_world 0%nat 0%nat _ 2 Hs2)
      as (Hclosed & _ & _).
    apply Hclosed. reflexivity.
Defined.

(** C10.  On an open shift, [add_order] with an order that has no portion
    raises the error that [pay] raises, and the store it leaves is the store
    it found: the shift's [orders], the order's [paid] flag and its time of
    payment are what they were, and the order is not appended. *)
Theorem shift_add_order_empty_order_atomic
    (w : world) (shift order : loc) (s : Shift.t) (o : Order.t) (now : instant) :
  shift_heap w !! shift = Some s ->
  ShiftM.is_open_of s = true ->
  order_heap w !! order = Some o ->
  Order.portions o = [] ->
  ShiftM.add_order shift order now w = Some (Raise EmptyOrderError, w).
Proof.
  intros Hs Hopen Ho Hp.
  by rewrite shift_add_order_cases, Hs, Hopen, Ho, Hp.
Qed.

Lemma shift_add_order_empty_order_atomic_witness :
  ShiftM.add_order 0%nat 0%nat 2 demo_open_empty_world
    = Some (Raise EmptyOrderError, demo_open_empty_world).
Proof.
  apply (shift_add_order_empty_order_atomic demo_open_empty_world 0%nat 0%nat
           (Shift.mk 1 (Some 1) None []) (Order.mk 1 [] false None) 2);
    reflexivity.
Defined.

(** ** The lifecycle of a shift *)

Lemma lifecycle_open (s : Shift.t) :
  lifecycle_of s = OPEN <-> ShiftM.is_open_of s = true.
Proof.
  unfold lifecycle_of, ShiftM.is_open_of.
  destruct (Shift.start_time s), (Shift.end_time s); split; congruence.
Qed.

Lemma lifecycle_closed (s : Shift.t) :
  lifecycle_of s = CLOSED <-> is_Some (Shift.end_time s).
Proof.
  unfold lifecycle_of.
  destruct (Shift.start_time s), (Shift.end_time s); split;
    try congruence; try (intros [x Hx]; congruence); eauto.
Qed.

Lemma closed_not_open (s : Shift.t) :
  lifecycle_of s = CLOSED -> ShiftM.is_open_of s = false.
Proof.
  unfold lifecycle_of, ShiftM.is_open_of.
  destruct (Shift.start_time s), (Shift.end_time s); congruence.
Qed.

(** A closed shift stays closed through any sequence of calls. *)
Lemma closed_run_calls (cs : list call) (w w' : world) (sl : loc) (s : Shift.t) :
  shift_heap w !! sl = Some s -> lifecycle_of s = CLOSED ->
  run_calls cs w = Some w' ->
  exists s', shift_heap w' !! sl = Some s' /\ lifecycle_of s' = CLOSED /\
    Shift.end_time s' = Shift.end_time s.
Proof.
  revert w s. induction cs as [|c cs IH]; intros w s Hs Hc; simpl.
  - intros [= <-]. eauto.
  - destruct (run_call c w) as [[r w1]|] eqn:Hcall; [|done]. intros Hrun.
    destruct (run_call_shifts _ _ _ _ Hcall sl s Hs) as (s1 & Hs1 & _ & Hend).
    apply lifecycle_closed in Hc. destruct (Hend Hc) as [He _].
    destruct (IH w1 s1 Hs1) as (s' & Hs' & Hc' & He'); [|done|].
    + apply lifecycle_closed. by rewrite He.
    + exists s'. repeat split; [done..|]. by rewrite He', He.
Qed.

(** C5.  A shift goes UNOPENED → OPEN → CLOSED and stays CLOSED:
    [close] on an unopened shift raises and changes nothing; [open] on a
    closed shift raises the error of reopening and changes nothing; [open]
    on an open shift returns and leaves the store, and so the start time,
    as it was; [open] on an unopened shift and [close] on an open shift make
    the two transitions; and after any sequence of calls a closed shift is
    still closed, with the end time it had, so that [is_open] is false. *)
Theorem shift_lifecycle :
  (forall (w : world) (sl : loc) (s : Shift.t) (now : instant),
     shift_heap w !! sl = Some s -> lifecycle_of s = UNOPENED ->
     ShiftM.close sl now w = Some (Raise ShiftNotOpenError_close, w))
  /\ (forall (w : world) (sl : loc) (s : Shift.t) (now : instant),
        shift_heap w !! sl = Some s -> lifecycle_of s = CLOSED ->
        ShiftM.open sl now w = Some (Raise ReopenClosedShiftError, w))
  /\ (forall (w : world) (sl : loc) (s : Shift.t) (now : instant),
        shift_heap w !! sl = Some s -> lifecycle_of s = OPEN ->
        ShiftM.open sl now w = Some (Ok tt, w))
  /\ (forall (w : world) (sl : loc) (s : Shift.t) (now : instant),
        shift_heap w !! sl = Some s -> lifecycle_of s = UNOPENED ->
        let s' := Shift.mk (Shift.number s) (Some now) None (Shift.orders s) in
        ShiftM.open sl now w
          = Some (Ok tt, set_shift_heap (<[sl := s']> (shift_heap w)) w)
        /\ lifecycle_of s' = OPEN)
  /\ (forall (w : world) (sl : loc) (s : Shift.t) (now : instant),
        shift_heap w !! sl = Some s -> lifecycle_of s = OPEN ->
        let s' := Shift.mk (Shift.number s) (Shift.start_time s) (Some now)
                    (Shift.orders s) in
        ShiftM.close sl now w
          = Some (Ok tt, set_shift_heap (<[sl := s']> (shift_heap w)) w)
        /\ lifecycle_of s' = CLOSED)
  /\ (forall (w w' : world) (sl : loc) (s : Shift.t) (cs : list call),
        shift_heap w !! sl = Some s -> lifecycle_of s = CLOSED ->
        run_calls cs w = Some w' ->
        exists s' : Shift.t,
          shift_heap w' !! sl = Some s' /\ lifecycle_of s' = CLOSED /\
          Shift.end_time s' = Shift.end_time s /\
          ShiftM.is_open sl w' = Some (Ok false, w')).
Proof.
  repeat apply conj.
  - intros w sl s now Hs Hl. rewrite shift_close_eq, Hs.
    unfold lifecycle_of, ShiftM.is_open_of in *.
    by destruct (Shift.start_time s), (Shift.end_time s).
  - intros w sl s now Hs Hl. rewrite shift_open_eq, Hs.
    unfold lifecycle_of, ShiftM.is_open_of in *.
    by destruct (Shift.start_time s), (Shift.end_time s).
  - intros w sl s now Hs Hl. rewrite shift_open_eq, Hs.
    apply lifecycle_open in Hl. by rewrite Hl.
  - intros w sl s now Hs Hl. cbv zeta. rewrite shift_open_eq, Hs.
    unfold lifecycle_of, ShiftM.is_open_of, Shift.set_start_time in *.
    by destruct (Shift.start_time s), (Shift.end_time s) eqn:He; simplify_eq.
  - intros w sl s now Hs Hl. cbv zeta. rewrite shift_close_eq, Hs.
    unfold lifecycle_of, ShiftM.is_open_of, Shift.set_end_time in *.
    by destruct (Shift.start_time s) eqn:Hst, (Shift.end_time s); simplify_eq.
  - intros w w' sl s cs Hs Hl Hrun.
    destruct (closed_run_calls cs w w' sl s Hs Hl Hrun) as (s' & Hs' & Hc' & He').
    exists s'. repeat split; [done..|].
    rewrite shift_is_open_eq, Hs'. by rewrite (closed_not_open s' Hc').
Qed.

Lemma shift_lifecycle_witness :
  let closed :=
    mk_world 1 1 {[ 0%nat := Order.mk 1 [] false None ]}
      {[ 0%nat := Shift.mk 1 (Some 1) (Some 3) [] ]} in
  ShiftM.close 0%nat 3 demo_shift_world
    = Some (Raise ShiftNotOpenError_close, demo_shift_world)
  /\ ShiftM.open 0%nat 5 closed = Some (Raise ReopenClosedShiftError, closed)
  /\ ShiftM.open 0%nat 5 demo_open_empty_world = Some (Ok tt, demo_open_empty_world)
  /\ ShiftM.open 0%nat 1 demo_shift_world = Some (Ok tt, demo_open_empty_world)
  /\ ShiftM.close 0%nat 3 demo_open_empty_world = Some (Ok tt, closed)
  /\ exists w', run_calls [Open 0%nat 7; AddOrder 0%nat 0%nat 8; Close 0%nat 9] closed
                = Some w' /\
       ShiftM.is_open 0%nat w' = Some (Ok false, w').
Proof.
  cbv zeta.
  pose (closed := mk_world 1 1 {[ 0%nat := Order.mk 1 [] false None ]}
                    {[ 0%nat := Shift.mk 1 (Some 1) (Some 3) [] ]}).
  change (mk_world 1 1 {[ 0%nat := Order.mk 1 [] false None ]}
            {[ 0%nat := Shift.mk 1 (Some 1) (Some 3) [] ]}) with closed.
  assert (Hu : shift_heap demo_shift_world !! 0%nat = Some (Shift.mk 1 None None []))
    by reflexivity.
  assert (Ho : shift_heap demo_open_empty_world !! 0%nat
               = Some (Shift.mk 1 (Some 1) None [])) by reflexivity.
  assert (Hc : shift_heap closed !! 0%nat = Some (Shift.mk 1 (Some 1) (Some 3) []))
    by reflexivity.
  destruct shift_lifecycle as (H1 & H2 & H3 & H4 & H5 & H6).
  split; [exact (H1 _ _ _ 3 Hu eq_refl)|].
  split; [exact (H2 _ _ _ 5 Hc eq_refl)|].
  split; [exact (H3 _ _ _ 5 Ho eq_refl)|].
  split.
  { destruct (H4 _ _ _ 1 Hu eq_refl) as [Heq _]. rewrite Heq. reflexivity. }
  split.
  { destruct (H5 _ _ _ 3 Ho eq_refl) as [Heq _]. rewrite Heq. reflexivity. }
  exists closed. split; [reflexivity|].
  destruct (H6 closed closed 0%nat _
              [Open 0%nat 7; AddOrder 0%nat 0%nat 8; Close 0%nat 9] Hc eq_refl eq_refl)
    as (s' & _ & _ & _ & Hopen).
  exact Hopen.
Defined.

(** ** The orders of a shift are paid *)

(** C7.  In every store that calls of the methods can reach from the start
    of the process, every order in the [orders] of every shift is paid and
    has a time of payment; and every call (of a method of [Shift], and of
    [Order] as well) that starts where this holds ends where it holds,
    whether it returns or raises. *)
Theorem shift_orders_are_paid :
  (forall w : world, reachable w -> orders_paid w)
  /\ (forall (c : call) (w w' : world) (r : result value),
        orders_paid w -> run_call c w = Some (r, w') -> orders_paid w').
Proof.
  split; [exact orders_paid_reachable | exact orders_paid_call].
Qed.

Lemma shift_orders_are_paid_witness :
  run_calls (NewShift :: demo_calls) init_world = Some demo_final_world
  /\ orders_paid demo_final_world
  /\ orders_paid demo_open_world
  /\ exists w', run_call (AddOrder 0%nat 0%nat 2) demo_open_world = Some (Ok VNone, w')
                /\ orders_paid w'.
Proof.
  destruct shift_orders_are_paid as [Hreach Hstep].
  split; [reflexivity|]. split; [|split].
  - apply Hreach.
    apply (reachable_run_calls (NewShift :: demo_calls) init_world);
      [apply reachable_init | reflexivity].
  - apply Hreach.
    apply (reachable_run_calls
             [NewShift; NewOrder; AddPortion 0%nat demo_portion; Open 0%nat 1] init_world);
      [apply reachable_init | reflexivity].
  - eexists. split; [reflexivity|].
    apply (Hstep (AddOrder 0%nat 0%nat 2) demo_open_world _ (Ok VNone)); [|reflexivity].
    apply Hreach.
    apply (reachable_run_calls
             [NewShift; NewOrder; AddPortion 0%nat demo_portion; Open 0%nat 1] init_world);
      [apply reachable_init | reflexivity].
Defined.

(** ** Revenue *)

Lemma sum_Z_nil_revenue (w : world) (sl : loc) (s : Shift.t) :
  shift_heap w !! sl = Some s -> Shift.orders s = [] ->
  ShiftM.revenue sl w = Some (Ok 0, w).
Proof. intros Hs Ho. by rewrite shift_revenue_eq, Hs, Ho. Qed.

Lemma revenue_of_prices (w : world) (sl : loc) (s : Shift.t) (prices : list Z) :
  shift_heap w !! sl = Some s -> prices_of w (Shift.orders s) prices ->
  ShiftM.revenue sl w = Some (Ok (sum_Z prices), w).
Proof.
  intros Hs Hp. rewrite shift_revenue_eq, Hs.
  by rewrite (sum_total_prices_prices w _ prices 0 Hp).
Qed.

(** The [orders] of a shift follow the calls of [add_order] that returned,
    and name order objects that exist. *)
Lemma orders_follow_calls (cs : list call) (w w' : world) (sl : loc) (s : Shift.t) :
  shift_heap w !! sl = Some s ->
  (forall o, o ∈ Shift.orders s -> is_Some (order_heap w !! o)) ->
  run_calls cs w = Some w' ->
  exists s', shift_heap w' !! sl = Some s' /\
    Shift.orders s' = Shift.orders s ++ added_via_add_order sl cs w /\
    (forall o, o ∈ Shift.orders s' -> is_Some (order_heap w' !! o)).
Proof.
  revert w s. induction cs as [|c cs IH]; intros w s Hs Hv; simpl.
  - intros [= <-]. exists s. by rewrite app_nil_r.
  - destruct (run_call c w) as [[r w1]|] eqn:Hcall; [|done]. intros Hrun.
    destruct (run_call_shifts _ _ _ _ Hcall sl s Hs) as (s1 & Hs1 & Hord & _).
    destruct (IH w1 s1 Hs1) as (s' & Hs' & Hord' & Hv'); [|done|].
    + intros o Ho. rewrite Hord in Ho. apply elem_of_app in Ho as [Hold|Hnew].
      * destruct (Hv o Hold) as [x Hx].
        destruct (run_call_orders _ _ _ _ Hcall o x Hx) as (x' & Hx' & _). eauto.
      * destruct (run_call_accepted _ _ _ _ _ _ Hcall Hnew) as (x' & Hx' & _). eauto.
    + exists s'. split; [done|]. split; [|done].
      by rewrite Hord', Hord, <- app_assoc.
Qed.

(** C4.  After any sequence of calls on a shift from its construction on,
    [revenue] returns the sum of the [total_price] that the orders accepted
    by [add_order] on this shift have at that moment, taken in the order
    they were added, and leaves the store as it is.  [revenue] of a shift
    with no orders is 0.  In every reachable store [revenue] returns, for
    every shift, whatever its start and end times are. *)
Theorem shift_revenue_sums_added_orders :
  (forall (w w0 w' : world) (sl : loc) (cs : list call),
     ShiftM.init w = Some (Ok sl, w0) ->
     run_calls cs w0 = Some w' ->
     exists prices : list Z,
       prices_of w' (added_via_add_order sl cs w0) prices /\
       ShiftM.revenue sl w' = Some (Ok (sum_Z prices), w'))
  /\ (forall (w : world) (sl : loc) (s : Shift.t),
        shift_heap w !! sl = Some s -> Shift.orders s = [] ->
        ShiftM.revenue sl w = Some (Ok 0, w))
  /\ (forall (w : world) (sl : loc) (s : Shift.t),
        reachable w -> shift_heap w !! sl = Some s ->
        exists prices : list Z,
          prices_of w (Shift.orders s) prices /\
          ShiftM.revenue sl w = Some (Ok (sum_Z prices), w)).
Proof.
  split; [|split].
  - intros w w0 w' sl cs Hinit Hrun.
    rewrite shift_init_eq in Hinit. cbv zeta in Hinit. simplify_eq.
    set (w0 := mk_world _ _ _ _) in *.
    destruct (orders_follow_calls cs w0 w' (fresh (dom (shift_heap w)))
                (Shift.mk (shift_counter w + 1) None None []))
      as (s' & Hs' & Hord & Hv); [| |done|].
    + unfold w0. simpl. by rewrite lookup_insert_eq.
    + simpl. intros o Ho. by apply elem_of_nil in Ho.
    + simpl in Hord. rewrite <- Hord.
      destruct (prices_of_valid w' (Shift.orders s') Hv) as [prices Hp].
      exists prices. split; [done|]. by apply (revenue_of_prices w' _ s').
  - exact sum_Z_nil_revenue.
  - intros w sl s Hr Hs.
    destruct (prices_of_valid w (Shift.orders s)) as [prices Hp].
    + intros o Ho.
      destruct (orders_paid_reachable w Hr sl s Hs o Ho) as (x & Hx & _). eauto.
    + exists prices. split; [done|]. by apply (revenue_of_prices w sl s).
Qed.

Lemma shift_revenue_sums_added_orders_witness :
  ShiftM.init init_world = Some (Ok 0%nat, demo_new_shift_world)
  /\ run_calls demo_calls demo_new_shift_world = Some demo_final_world
  /\ added_via_add_order 0%nat demo_calls demo_new_shift_world = [0%nat]
  /\ OrderM.total_price 0%nat demo_final_world = Some (Ok 130, demo_final_world)
  /\ ShiftM.revenue 0%nat demo_final_world = Some (Ok 130, demo_final_world)
  /\ ShiftM.revenue 0%nat demo_new_shift_world = Some (Ok 0, demo_new_shift_world).
Proof.
  destruct shift_revenue_sums_added_orders as (Hsum & Hzero & Hany).
  assert (Hi : ShiftM.init init_world = Some (Ok 0%nat, demo_new_shift_world))
    by reflexivity.
  assert (Hr : run_calls demo_calls demo_new_shift_world = Some demo_final_world)
    by reflexivity.
  assert (Ha : added_via_add_order 0%nat demo_calls demo_new_shift_world = [0%nat])
    by reflexivity.
  assert (Ht : OrderM.total_price 0%nat demo_final_world
               = Some (Ok 130, demo_final_world)) by reflexivity.
  split; [exact Hi|]. split; [exact Hr|]. split; [exact Ha|]. split; [exact Ht|].
  split.
  - destruct (Hsum init_world demo_new_shift_world demo_final_world 0%nat demo_calls
                Hi Hr) as (prices & Hp & Hrev).
    rewrite Hrev. rewrite Ha in Hp.
    inversion Hp as [|o p os ps Hop Hrest]; subst.
    inversion Hrest; subst.
    rewrite Ht in Hop. injection Hop as <-. reflexivity.
  - apply (Hzero demo_new_shift_world 0%nat (Shift.mk 1 None None [])); reflexivity.
Defined.

(** ** Reading the catalog *)

Section InventoryFacts.

Variable int : string -> option Z.
Variable fs : string -> file.

Lemma parse_ints_fails (parts : list string) (acc : list Z) :
  (exists part, part ∈ parts /\ int (str_strip part) = None) ->
  parse_ints int parts acc = Raise (ValueError msg_invalid_literal).
Proof.
  revert acc. induction parts as [|p parts IH]; intros acc (part & Hin & Hnone).
  - by apply elem_of_nil in Hin.
  - simpl. destruct (int (str_strip p)) as [z|] eqn:Hp; [|done].
    apply IH. exists part. split; [|done].
    apply elem_of_cons in Hin as [->|Hin]; [congruence | done].
Qed.

Lemma parse_line_fails (line : string) :
  line_fails int line ->
  parse_line int line = Raise (ValueError msg_invalid_literal).
Proof.
  intros (part & Hin & Hnone). unfold parse_line.
  destruct (str_split ","%char (str_strip line)) as [|p0 rest].
  - by apply elem_of_nil in Hin.
  - simpl in Hin. rewrite parse_ints_fails; [done|]. eauto.
Qed.

Lemma parse_lines_fails (ls : list string) (acc : list tuple) :
  Exists (line_fails int) ls -> exists e, parse_lines int ls acc = Raise e.
Proof.
  intros Hex. revert acc.
  induction ls as [|line ls IH]; intros acc; [by inversion Hex|].
  simpl. destruct (parse_line int line) as [tup|e] eqn:Hline; [|eauto].
  apply IH. inversion Hex as [? ? Hf|]; subst; [|done].
  rewrite (parse_line_fails _ Hf) in Hline. discriminate.
Qed.

Lemma read_file_degraded (fname : string) :
  degraded int fs fname -> read_file int fs fname = [].
Proof.
  unfold read_file. intros [Hm|[Ho|(ls & Hl & Hex)]].
  - by rewrite Hm.
  - by rewrite Ho.
  - rewrite Hl. destruct (parse_lines_fails ls [] Hex) as [e He]. by rewrite He.
Qed.

End InventoryFacts.

(** X21.  Whatever [int] accepts and whatever the file system holds:
    [read_file] returns the empty list in each of the cases its two
    [except] clauses cover, which are that the file is not there, that
    another exception is raised while it is opened or read, and that [int]
    raises on a field of one of its lines; and then each of the three
    categories, flavors, toppings and containers, is loaded as the empty
    list, and the loading does not raise. *)
Theorem read_file_missing_or_malformed_is_empty
    (int : string -> option Z) (fs : string -> file) :
  (forall fname : string, fs fname = FileNotFound -> read_file int fs fname = [])
  /\ (forall fname : string, fs fname = OtherFailure -> read_file int fs fname = [])
  /\ (forall (fname : string) (ls : list string),
        fs fname = Lines ls -> Exists (line_fails int) ls ->
        read_file int fs fname = [])
  /\ (degraded int fs "./data/icecream.txt" -> load_flavors int fs = Ok [])
  /\ (degraded int fs "./data/topping.txt" -> load_toppings int fs = Ok [])
  /\ (degraded int fs "./data/container.txt" -> load_containers int fs = Ok []).
Proof.
  repeat apply conj.
  - intros fname Hm. apply read_file_degraded. by left.
  - intros fname Ho. apply read_file_degraded. right. by left.
  - intros fname ls Hl Hex. apply read_file_degraded. right. right. eauto.
  - intros Hd. unfold load_flavors. by rewrite read_file_degraded.
  - intros Hd. unfold load_toppings. by rewrite read_file_degraded.
  - intros Hd. unfold load_containers. by rewrite read_file_degraded.
Qed.

Lemma demo_pistachio_fails :
  line_fails int_latin1 (quote +:+ "Pistachio" +:+ quote +:+ ", a lot" +:+ newline).
Proof. exists " a lot". split; [|reflexivity]. vm_compute. apply list_elem_of_here. Qed.

Lemma read_file_missing_or_malformed_is_empty_witness :
  demo_fs "./data/topping.txt" = FileNotFound
  /\ read_file int_latin1 demo_fs "./data/topping.txt" = []
  /\ load_toppings int_latin1 demo_fs = Ok []
  /\ degraded int_latin1 demo_fs "./data/icecream.txt"
  /\ read_file int_latin1 demo_fs "./data/icecream.txt" = []
  /\ load_flavors int_latin1 demo_fs = Ok []
  /\ load_containers int_latin1 demo_fs
     = Ok [Container.mk "Cup" 2 30; Container.mk "Cone" 3 10]
  /\ read_file int_latin1 demo_fs_unreadable "./data/container.txt" = []
  /\ load_containers int_latin1 demo_fs_unreadable = Ok [].
Proof.
  destruct (read_file_missing_or_malformed_is_empty int_latin1 demo_fs)
    as (Hmissing & _ & Hparse & Hfl & Htop & _).
  destruct (read_file_missing_or_malformed_is_empty int_latin1 demo_fs_unreadable)
    as (_ & Hother & _ & _ & _ & Hcont).
  assert (Hd : degraded int_latin1 demo_fs "./data/icecream.txt").
  { right. right. eexists. split; [reflexivity|].
    apply Exists_cons_tl, Exists_cons_hd, demo_pistachio_fails. }
  split; [reflexivity|].
  split; [apply Hmissing; reflexivity|].
  split; [apply Htop; left; reflexivity|].
  split; [exact Hd|].
  split.
  { destruct Hd as [Hm|[Ho|(ls & Hl & Hex)]]; [discriminate | discriminate |].
    exact (Hparse _ ls Hl Hex). }
  split; [exact (Hfl Hd)|].
  split; [reflexivity|].
  split; [apply Hother; reflexivity|].
  apply Hcont. right. left. reflexivity.
Defined.

(** C9.  The program at the failing input, a catalog file whose one line
    is a name without a price.  Whatever [int] accepts, no [except] clause
    of [read_file] is taken: the file is read, no field is handed to [int],
    and [read_file] returns not the empty list but one tuple of one
    element.  The loading loop of [IceCreamParlor.__init__] then raises
    [IndexError] on [tup[1]], for the flavors, for the toppings and for
    the containers alike, and nothing catches it. *)
Lemma catalog_line_without_price_is_fatal :
  forall int : string -> option Z,
    demo_fs_short "./data/icecream.txt" = Lines ["Pistachio" +:+ newline]
    /\ ~ degraded int demo_fs_short "./data/icecream.txt"
    /\ read_file int demo_fs_short "./data/icecream.txt" = [("Pistachio", [])]
    /\ read_file int demo_fs_short "./data/icecream.txt" ≠ []
    /\ load_flavors int demo_fs_short = Raise (IndexError msg_tuple_index)
    /\ load_flavors int demo_fs_short ≠ Ok []
    /\ load_toppings int demo_fs_short = Raise (IndexError msg_tuple_index)
    /\ load_containers int demo_fs_short = Raise (IndexError msg_tuple_index).
Proof.
  intros int.
  assert (Hread : forall fname, read_file int demo_fs_short fname = [("Pistachio", [])])
    by reflexivity.
  split; [reflexivity|]. split.
  { intros [Hm|[Ho|(ls & Hl & Hex)]]; [discriminate | discriminate |].
    injection Hl as <-. apply Exists_cons in Hex as [Hfail|Hrest].
    - destruct Hfail as (part & Hin & _). vm_compute in Hin.
      by apply elem_of_nil in Hin.
    - by apply Exists_nil in Hrest. }
  split; [apply Hread|]. split; [by rewrite Hread|].
  unfold load_flavors, load_toppings, load_containers. rewrite !Hread.
  repeat split; done.
Qed.

(** ** More on orders: prices and numbers *)

Lemma py_sum_snoc (l : list Z) (x : Z) : py_sum (l ++ [x]) = py_sum l + x.
Proof. unfold py_sum. by rewrite fold_left_app. Qed.

(** X1.  [add_portion] returns on every order, paid or not; it appends the
    portion, leaves the number, the paid flag, the time of payment and all
    shifts as they were, and raises the order's [total_price] by exactly the
    [total_price] of the portion. *)
Theorem order_add_portion_adds_price
    (w : world) (self : loc) (o : Order.t) (portion : Portion.t) :
  order_heap w !! self = Some o ->
  exists (z : Z) (w' : world),
    OrderM.total_price self w = Some (Ok z, w)
    /\ OrderM.add_portion self portion w = Some (Ok tt, w')
    /\ OrderM.total_price self w' = Some (Ok (z + Portion.total_price portion), w')
    /\ order_heap w' !! self
       = Some (Order.mk (Order.number o) (Order.portions o ++ [portion])
                 (Order.paid o) (Order.time_of_payment o))
    /\ shift_heap w' = shift_heap w.
Proof.
  intros Ho. eexists. eexists.
  rewrite order_total_price_eq, order_add_portion_eq, Ho.
  split; [reflexivity|]. split; [reflexivity|].
  rewrite order_total_price_eq. simpl. rewrite lookup_insert_eq. simpl.
  split; [|done]. rewrite map_app. simpl. by rewrite py_sum_snoc.
Qed.

Lemma order_add_portion_adds_price_witness :
  OrderM.total_price 0%nat demo_final_world = Some (Ok 130, demo_final_world)
  /\ exists w',
       OrderM.add_portion 0%nat demo_portion demo_final_world = Some (Ok tt, w')
       /\ OrderM.total_price 0%nat w' = Some (Ok 260, w').
Proof.
  split; [reflexivity|].
  destruct (order_add_portion_adds_price demo_final_world 0%nat
              (Order.mk 1 [demo_portion] true (Some 2)) demo_portion eq_refl)
    as (z & w' & Hz & Hadd & Hprice & _).
  exists w'. split; [exact Hadd|].
  rewrite Hprice. injection Hz as <-. reflexivity.
Defined.

(** What one call does to the order numbers. *)
Lemma run_call_order_numbers (c : call) (w w' : world) (r : result value) :
  run_call c w = Some (r, w') ->
  (order_counter w' = order_counter w
   /\ size (order_heap w') = size (order_heap w)
   /\ forall l o', order_heap w' !! l = Some o' ->
        exists o, order_heap w !! l = Some o /\ Order.number o = Order.number o')
  \/ (order_counter w' = order_counter w + 1
      /\ size (order_heap w') = S (size (order_heap w))
      /\ forall l o', order_heap w' !! l = Some o' ->
           (exists o, order_heap w !! l = Some o /\ Order.number o = Order.number o')
           \/ (l = fresh (dom (order_heap w))
               /\ Order.number o' = order_counter w + 1)).
Proof.
  intros H.
  destruct c; invert_call H; simpl;
    try (left; split; [done|]; split; [done|]; by eauto).
  - (* NewOrder *)
    right. split; [done|]. split.
    + apply map_size_insert_None, not_elem_of_dom, is_fresh.
    + intros xl xo Hx.
      destruct (decide (fresh (dom (order_heap w)) = xl)) as [Heq|Hne].
      * rewrite Heq, lookup_insert_eq in Hx. right. by simplify_eq.
      * rewrite lookup_insert_ne in Hx by done. left. eauto.
  - (* AddPortion *)
    left. split; [done|]. split; [by erewrite map_size_insert_Some|].
    intros xl xo Hx. destruct (decide (order = xl)) as [->|Hne].
    + rewrite lookup_insert_eq in Hx. simplify_eq. eauto.
    + rewrite lookup_insert_ne in Hx by done. eauto.
  - (* Pay *)
    left. split; [done|]. split; [by erewrite map_size_insert_Some|].
    intros xl xo Hx. destruct (decide (order = xl)) as [->|Hne].
    + rewrite lookup_insert_eq in Hx. simplify_eq. eauto.
    + rewrite lookup_insert_ne in Hx by done. eauto.
  - (* AddOrder *)
    left. split; [done|]. split; [by erewrite map_size_insert_Some|].
    intros xl xo Hx. destruct (decide (order = xl)) as [->|Hne].
    + rewrite lookup_insert_eq in Hx. simplify_eq. eauto.
    + rewrite lookup_insert_ne in Hx by done. eauto.
Qed.

Lemma order_numbers_call (c : call) (w w' : world) (r : result value) :
  order_numbers_ok w -> run_call c w = Some (r, w') -> order_numbers_ok w'.
Proof.
  intros (Hsize & Hrange & Hinj) H.
  destruct (run_call_order_numbers c w w' r H)
    as [(Hc & Hs & Hold)|(Hc & Hs & Hnew)].
  - split; [by rewrite Hc, Hs|]. split.
    + intros l o' Ho'. destruct (Hold l o' Ho') as (o & Ho & <-).
      rewrite Hc. eauto.
    + intros l1 l2 o1 o2 H1 H2 Heq.
      destruct (Hold l1 o1 H1) as (x1 & Hx1 & E1).
      destruct (Hold l2 o2 H2) as (x2 & Hx2 & E2).
      apply (Hinj l1 l2 x1 x2); [done..|]. congruence.
  - split; [rewrite Hc, Hs, Hsize; lia|]. split.
    + intros l o' Ho'. destruct (Hnew l o' Ho') as [(o & Ho & <-)|[_ ->]].
      * specialize (Hrange l o Ho). lia.
      * lia.
    + intros l1 l2 o1 o2 H1 H2 Heq.
      destruct (Hnew l1 o1 H1) as [(x1 & Hx1 & E1)|[L1 E1]],
               (Hnew l2 o2 H2) as [(x2 & Hx2 & E2)|[L2 E2]].
      * apply (Hinj l1 l2 x1 x2); [done..|]. congruence.
      * specialize (Hrange l1 x1 Hx1). lia.
      * specialize (Hrange l2 x2 Hx2). lia.
      * congruence.
Qed.

Lemma order_numbers_reachable (w : world) : reachable w -> order_numbers_ok w.
Proof.
  induction 1 as [|w c r w' _ IH Hc].
  - split; [done|]. split; intros *; simpl; by rewrite lookup_empty.
  - by apply (order_numbers_call c w w' r).
Qed.

(** X2.  In every store the calls can reach, the class counter of [Order]
    is the number of orders ever constructed, every order's number lies
    between 1 and the counter, and two different order objects have
    different numbers; the order constructed next gets the counter plus one
    as its number, starts unpaid and empty, and sits at a location that
    held no object. *)
Theorem order_numbers_are_sequential (w : world) :
  reachable w ->
  order_numbers_ok w
  /\ exists (l : loc) (w' : world),
       OrderM.init w = Some (Ok l, w')
       /\ order_heap w !! l = None
       /\ order_heap w' !! l
          = Some (Order.mk (Z.of_nat (size (order_heap w)) + 1) [] false None)
       /\ order_numbers_ok w'.
Proof.
  intros Hr. pose proof (order_numbers_reachable w Hr) as Hok.
  split; [done|]. destruct Hok as (Hsize & _).
  exists (fresh (dom (order_heap w))). eexists.
  split; [apply order_init_eq|]. cbv zeta. simpl.
  split; [apply not_elem_of_dom, is_fresh|].
  split; [by rewrite lookup_insert_eq, Hsize|].
  apply (order_numbers_reachable _
           (reachable_call w NewOrder (Ok (VRef (fresh (dom (order_heap w))))) _ Hr eq_refl)).
Qed.

Lemma order_numbers_are_sequential_witness :
  reachable demo_final_world
  /\ order_numbers_ok demo_final_world
  /\ exists w', OrderM.init demo_final_world = Some (Ok 1%nat, w')
       /\ order_heap w' !! 1%nat = Some (Order.mk 2 [] false None).
Proof.
  assert (Hr : reachable demo_final_world).
  { apply (reachable_run_calls (NewShift :: demo_calls) init_world);
      [apply reachable_init | reflexivity]. }
  destruct (order_numbers_are_sequential demo_final_world Hr)
    as (Hok & l & w' & Hinit & _ & Hl & _).
  split; [exact Hr|]. split; [exact Hok|].
  assert (Hi : OrderM.init demo_final_world
               = Some (Ok 1%nat,
                       mk_world 2 1
                         (<[1%nat := Order.mk 2 [] false None]>
                            (order_heap demo_final_world))
                         (shift_heap demo_final_world))) by reflexivity.
  rewrite Hi in Hinit. injection Hinit as <- <-.
  eexists. split; [exact Hi|]. exact Hl.
Defined.

(** ** More on shifts: numbers and timestamps *)

(** What one call does to the shift objects: a shift that was there keeps
    its number and a start time it had; a shift that appears is the new one,
    numbered by the counter, with neither time set. *)
Lemma run_call_shift_objects (c : call) (w w' : world) (r : result value) :
  run_call c w = Some (r, w') ->
  (shift_counter w' = shift_counter w
   /\ size (shift_heap w') = size (shift_heap w)
   \/ shift_counter w' = shift_counter w + 1
      /\ size (shift_heap w') = S (size (shift_heap w)))
  /\ forall l s', shift_heap w' !! l = Some s' ->
       (exists s, shift_heap w !! l = Some s
          /\ Shift.number s = Shift.number s'
          /\ (forall t, Shift.start_time s = Some t -> Shift.start_time s' = Some t)
          /\ (is_Some (Shift.end_time s') ->
              is_Some (Shift.end_time s) \/ ShiftM.is_open_of s = true))
       \/ (l = fresh (dom (shift_heap w))
           /\ shift_counter w' = shift_counter w + 1
           /\ s' = Shift.mk (shift_counter w + 1) None None []).
Proof.
  intros H.
  destruct c; invert_call H; simpl;
    try (split; [by left|]; intros xl xs Hx; left; exists xs; by eauto).
  - (* NewShift *)
    split.
    + right. split; [done|]. apply map_size_insert_None, not_elem_of_dom, is_fresh.
    + intros xl xs Hx.
      destruct (decide (fresh (dom (shift_heap w)) = xl)) as [Heq|Hne].
      * rewrite Heq, lookup_insert_eq in Hx. right. by simplify_eq.
      * rewrite lookup_insert_ne in Hx by done. left. exists xs. eauto.
  - (* Open *)
    split; [left; split; [done|]; by erewrite map_size_insert_Some|].
    intros xl xs Hx. left. destruct (decide (shift = xl)) as [->|Hne].
    + rewrite lookup_insert_eq in Hx. simplify_eq. eexists. split; [done|].
      simpl. split; [done|]. split; [|by eauto].
      intros t0 Ht0. unfold ShiftM.is_open_of in *.
      destruct (Shift.start_time _), (Shift.end_time _); simplify_eq.
    + rewrite lookup_insert_ne in Hx by done. exists xs. eauto.
  - (* Close *)
    split; [left; split; [done|]; by erewrite map_size_insert_Some|].
    intros xl xs Hx. left. destruct (decide (shift = xl)) as [->|Hne].
    + rewrite lookup_insert_eq in Hx. simplify_eq. eexists. split; [done|].
      simpl. eauto.
    + rewrite lookup_insert_ne in Hx by done. exists xs. eauto.
  - (* AddOrder *)
    split; [left; split; [done|]; by erewrite map_size_insert_Some|].
    intros xl xs Hx. left. destruct (decide (shift = xl)) as [->|Hne].
    + rewrite lookup_insert_eq in Hx. simplify_eq. eexists. split; [done|].
      simpl. eauto.
    + rewrite lookup_insert_ne in Hx by done. exists xs. eauto.
Qed.

Lemma shift_numbers_call (c : call) (w w' : world) (r : result value) :
  shift_numbers_ok w -> run_call c w = Some (r, w') -> shift_numbers_ok w'.
Proof.
  intros (Hsize & Hrange & Hinj) H.
  destruct (run_call_shift_objects c w w' r H) as (Hcount & Hobj).
  assert (Hle : shift_counter w <= shift_counter w') by (destruct Hcount; lia).
  split; [destruct Hcount as [[-> ->]|[-> ->]]; lia|]. split.
  - intros l s' Hs'. destruct (Hobj l s' Hs') as [(s & Hs & <- & _)|(_ & Hc & ->)].
    + specialize (Hrange l s Hs). lia.
    + simpl. lia.
  - intros l1 l2 s1 s2 H1 H2 Heq.
    destruct (Hobj l1 s1 H1) as [(x1 & Hx1 & E1 & _)|(L1 & _ & ->)],
             (Hobj l2 s2 H2) as [(x2 & Hx2 & E2 & _)|(L2 & _ & ->)].
    + apply (Hinj l1 l2 x1 x2); [done..|]. congruence.
    + specialize (Hrange l1 x1 Hx1). simpl in Heq. lia.
    + specialize (Hrange l2 x2 Hx2). simpl in Heq. lia.
    + congruence.
Qed.

Lemma shift_numbers_reachable (w : world) : reachable w -> shift_numbers_ok w.
Proof.
  induction 1 as [|w c r w' _ IH Hc].
  - split; [done|]. split; intros *; simpl; by rewrite lookup_empty.
  - by apply (shift_numbers_call c w w' r).
Qed.

(** X3.  In every store the calls can reach, the class counter of [Shift]
    is the number of shifts ever constructed, every shift's number lies
    between 1 and the counter, and two different shift objects have
    different numbers; the shift constructed next gets the counter plus one,
    has neither a start nor an end time and no orders; the counter of the
    orders is not touched by it. *)
Theorem shift_numbers_are_sequential (w : world) :
  reachable w ->
  shift_numbers_ok w
  /\ exists (l : loc) (w' : world),
       ShiftM.init w = Some (Ok l, w')
       /\ shift_heap w !! l = None
       /\ shift_heap w' !! l
          = Some (Shift.mk (Z.of_nat (size (shift_heap w)) + 1) None None [])
       /\ order_counter w' = order_counter w
       /\ shift_numbers_ok w'.
Proof.
  intros Hr. pose proof (shift_numbers_reachable w Hr) as Hok.
  split; [done|]. destruct Hok as (Hsize & _).
  exists (fresh (dom (shift_heap w))). eexists.
  split; [apply shift_init_eq|]. cbv zeta. simpl.
  split; [apply not_elem_of_dom, is_fresh|].
  split; [by rewrite lookup_insert_eq, Hsize|]. split; [done|].
  apply (shift_numbers_reachable _
           (reachable_call w NewShift (Ok (VRef (fresh (dom (shift_heap w))))) _ Hr eq_refl)).
Qed.

Lemma shift_numbers_are_sequential_witness :
  reachable demo_final_world
  /\ shift_numbers_ok demo_final_world
  /\ exists w', ShiftM.init demo_final_world = Some (Ok 1%nat, w')
       /\ shift_heap w' !! 1%nat = Some (Shift.mk 2 None None []).
Proof.
  assert (Hr : reachable demo_final_world).
  { apply (reachable_run_calls (NewShift :: demo_calls) init_world);
      [apply reachable_init | reflexivity]. }
  destruct (shift_numbers_are_sequential demo_final_world Hr)
    as (Hok & l & w' & Hinit & _ & Hl & _).
  split; [exact Hr|]. split; [exact Hok|].
  assert (Hi : ShiftM.init demo_final_world
               = Some (Ok 1%nat,
                       mk_world 1 2 (order_heap demo_final_world)
                         (<[1%nat := Shift.mk 2 None None []]>
                            (shift_heap demo_final_world)))) by reflexivity.
  rewrite Hi in Hinit. injection Hinit as <- <-.
  eexists. split; [exact Hi|]. exact Hl.
Defined.

Lemma shift_times_call (c : call) (w w' : world) (r : result value) :
  shift_times_ok w -> run_call c w = Some (r, w') -> shift_times_ok w'.
Proof.
  intros Hok H sl s' Hs' Hend.
  destruct (run_call_shift_objects c w w' r H) as (_ & Hobj).
  destruct (Hobj sl s' Hs') as [(s & Hs & _ & Hstart & Hwas)|(_ & _ & ->)].
  - assert (Hst : is_Some (Shift.start_time s)).
    { destruct (Hwas Hend) as [He|Ho]; [by apply (Hok sl s)|].
      unfold ShiftM.is_open_of in Ho. destruct (Shift.start_time s); [eauto|done]. }
    destruct Hst as [t Ht]. rewrite (Hstart t Ht). eauto.
  - simpl in Hend. by destruct Hend.
Qed.

Lemma shift_times_reachable (w : world) : reachable w -> shift_times_ok w.
Proof.
  induction 1 as [|w c r w' _ IH Hc].
  - intros sl s Hs. simpl in Hs. by rewrite lookup_empty in Hs.
  - by apply (shift_times_call c w w' r).
Qed.

Lemma start_time_run_calls (cs : list call) (w w' : world) (sl : loc)
    (s : Shift.t) (t : instant) :
  shift_heap w !! sl = Some s -> Shift.start_time s = Some t ->
  run_calls cs w = Some w' ->
  exists s', shift_heap w' !! sl = Some s' /\ Shift.start_time s' = Some t.
Proof.
  revert w s. induction cs as [|c cs IH]; intros w s Hs Ht; simpl.
  - intros [= <-]. eauto.
  - destruct (run_call c w) as [[r w1]|] eqn:Hcall; [|done]. intros Hrun.
    destruct (run_call_shifts _ _ _ _ Hcall sl s Hs) as (s1 & Hs1 & _ & _).
    destruct (run_call_shift_objects c w w1 r Hcall) as (_ & Hobj).
    destruct (Hobj sl s1 Hs1) as [(x & Hx & _ & Hstart & _)|(Hl & _ & _)].
    + simplify_eq. apply (IH w1 s1 Hs1); [|done]. by apply Hstart.
    + exfalso. apply (is_fresh (dom (shift_heap w))). rewrite <- Hl.
      apply elem_of_dom. eauto.
Qed.

(** X4.  A shift never has an end time without a start time: in every
    store the calls can reach, each shift has no time set, or a start time
    only, or both.  And the start time of a shift is written once: whatever
    calls follow, on this shift or on others, at whatever instants, the
    shift keeps the start time it has. *)
Theorem shift_start_time_is_written_once :
  (forall (w : world) (sl : loc) (s : Shift.t),
     reachable w -> shift_heap w !! sl = Some s ->
     (Shift.start_time s = None /\ Shift.end_time s = None)
     \/ (is_Some (Shift.start_time s) /\ Shift.end_time s = None)
     \/ (is_Some (Shift.start_time s) /\ is_Some (Shift.end_time s)))
  /\ (forall (cs : list call) (w w' : world) (sl : loc) (s : Shift.t) (t : instant),
        shift_heap w !! sl = Some s -> Shift.start_time s = Some t ->
        run_calls cs w = Some w' ->
        exists s', shift_heap w' !! sl = Some s' /\ Shift.start_time s' = Some t).
Proof.
  split; [|exact start_time_run_calls].
  intros w sl s Hr Hs. pose proof (shift_times_reachable w Hr sl s Hs) as Hok.
  destruct (Shift.end_time s) as [e|] eqn:He.
  - right. right. split; [apply Hok|]; eauto.
  - destruct (Shift.start_time s) as [t|]; [right; left; eauto | left; done].
Qed.

Lemma shift_start_time_is_written_once_witness :
  exists w',
    run_calls [Open 0%nat 7; Close 0%nat 8; Open 0%nat 9; NewShift; Open 1%nat 10]
      demo_open_world = Some w'
    /\ exists s', shift_heap w' !! 0%nat = Some s' /\ Shift.start_time s' = Some 1.
Proof.
  destruct shift_start_time_is_written_once as [_ Honce].
  eexists. split; [reflexivity|].
  apply (Honce [Open 0%nat 7; Close 0%nat 8; Open 0%nat 9; NewShift; Open 1%nat 10]
           demo_open_world _ 0%nat (Shift.mk 1 (Some 1) None []) 1);
    reflexivity.
Defined.

(** ** More on revenue *)

Lemma sum_Z_app (l1 l2 : list Z) : sum_Z (l1 ++ l2) = sum_Z l1 + sum_Z l2.
Proof. induction l1 as [|x l1 IH]; simpl; lia. Qed.

Lemma sum_total_prices_inv (os : list loc) (acc z : Z) (w w' : world) :
  ShiftM.sum_total_prices os acc w = Some (Ok z, w') ->
  exists prices, prices_of w os prices /\ z = acc + sum_Z prices.
Proof.
  revert acc. induction os as [|o os IH]; intros acc; simpl.
  - unfold mret, M_ret. intros [= <- _]. exists []. split; [constructor | simpl; lia].
  - rewrite bind_eq, order_total_price_eq.
    destruct (order_heap w !! o) as [x|] eqn:Hx; [|done]. intros H.
    destruct (IH _ H) as (prices & Hp & ->).
    exists (py_sum (map Portion.total_price (Order.portions x)) :: prices).
    split; [|simpl; lia].
    constructor; [|done]. by rewrite order_total_price_eq, Hx.
Qed.

Lemma revenue_inv (sl : loc) (z : Z) (w w' : world) :
  ShiftM.revenue sl w = Some (Ok z, w') ->
  exists s prices, shift_heap w !! sl = Some s
    /\ prices_of w (Shift.orders s) prices /\ z = sum_Z prices.
Proof.
  rewrite shift_revenue_eq. destruct (shift_heap w !! sl) as [s|]; [|done].
  intros H. destruct (sum_total_prices_inv _ _ _ _ _ H) as (prices & Hp & ->).
  exists s, prices. split; [done|]. split; [done | lia].
Qed.

Lemma total_price_inv (l : loc) (p : Z) (w w' : world) :
  OrderM.total_price l w = Some (Ok p, w') ->
  exists o, order_heap w !! l = Some o
    /\ p = py_sum (map Portion.total_price (Order.portions o)).
Proof.
  rewrite order_total_price_eq. destruct (order_heap w !! l) as [o|]; [|done].
  intros [= <- _]. eauto.
Qed.

(** Prices read in a store whose orders have the same portions are the
    same prices. *)
Lemma prices_of_same_portions (w w' : world) (os : list loc) (prices : list Z) :
  (forall l o, l ∈ os -> order_heap w !! l = Some o ->
     exists o', order_heap w' !! l = Some o' /\ Order.portions o' = Order.portions o) ->
  prices_of w os prices -> prices_of w' os prices.
Proof.
  intros Hsame Hp. induction Hp as [|l p os prices Hl _ IH]; [constructor|].
  constructor.
  - destruct (total_price_inv _ _ _ _ Hl) as (o & Ho & ->).
    destruct (Hsame l o) as (o' & Ho' & Heq); [by left | done |].
    by rewrite order_total_price_eq, Ho', Heq.
  - apply IH. intros l0 o0 Hin. apply Hsame. by right.
Qed.

(** A call other than [add_portion] leaves the portions of every order as
    they are. *)
Lemma run_call_portions (c : call) (w w' : world) (r : result value) :
  run_call c w = Some (r, w') ->
  (forall o p, c ≠ AddPortion o p) ->
  forall l o, order_heap w !! l = Some o ->
    exists o', order_heap w' !! l = Some o' /\ Order.portions o' = Order.portions o.
Proof.
  intros H Hc.
  destruct c; try (by destruct (Hc order portion));
    invert_call H; simpl; intros xl xo Hx; eauto.
  - exists xo. split; [|done]. rewrite lookup_insert_ne; [done|].
    intros Heq. apply (is_fresh (dom (order_heap w))). rewrite Heq.
    apply elem_of_dom. eauto.
  - destruct (decide (order = xl)) as [->|Hne].
    + rewrite lookup_insert_eq. same_object. eauto.
    + rewrite lookup_insert_ne by done. eauto.
  - destruct (decide (order = xl)) as [->|Hne].
    + rewrite lookup_insert_eq. same_object. eauto.
    + rewrite lookup_insert_ne by done. eauto.
Qed.

(** X5.  Only [add_order] and [add_portion] change a revenue: after any
    other call, returning or raising (constructing an order or a shift,
    paying, opening, closing, reading a price), every shift has the revenue
    it had; so the revenue of a shift stays what it was when the shift is
    closed. *)
Theorem revenue_changes_only_by_adding
    (c : call) (w w' : world) (r : result value) (sl : loc) (z : Z) :
  (forall o p, c ≠ AddPortion o p) ->
  (forall s o now, c ≠ AddOrder s o now) ->
  run_call c w = Some (r, w') ->
  ShiftM.revenue sl w = Some (Ok z, w) ->
  ShiftM.revenue sl w' = Some (Ok z, w').
Proof.
  intros Hnp Hno Hcall Hrev.
  destruct (revenue_inv _ _ _ _ Hrev) as (s & prices & Hs & Hp & ->).
  destruct (run_call_shifts _ _ _ _ Hcall sl s Hs) as (s' & Hs' & Hord & _).
  assert (Hacc : accepted c r sl = []).
  { destruct c; try done. by destruct (Hno shift order now). }
  rewrite Hacc, app_nil_r in Hord.
  apply (revenue_of_prices w' sl s' prices Hs'). rewrite Hord.
  apply (prices_of_same_portions w w'); [|done].
  intros l o _ Ho. by apply (run_call_portions c w w' r).
Qed.

Lemma revenue_changes_only_by_adding_witness :
  ShiftM.revenue 0%nat demo_added_world = Some (Ok 130, demo_added_world)
  /\ run_call (Close 0%nat 3) demo_added_world = Some (Ok VNone, demo_final_world)
  /\ ShiftM.revenue 0%nat demo_final_world = Some (Ok 130, demo_final_world).
Proof.
  assert (Hrev : ShiftM.revenue 0%nat demo_added_world
                 = Some (Ok 130, demo_added_world)) by reflexivity.
  assert (Hclose : run_call (Close 0%nat 3) demo_added_world
                   = Some (Ok VNone, demo_final_world)) by reflexivity.
  split; [exact Hrev|]. split; [exact Hclose|].
  apply (revenue_changes_only_by_adding (Close 0%nat 3) demo_added_world
           demo_final_world (Ok VNone) 0%nat 130); [done | done | exact Hclose | exact Hrev].
Defined.

(** X6.  When [add_order] returns, the revenue of the shift has grown by
    the [total_price] of the order, also when the order was in the shift
    already: an order added twice is counted twice.  The revenue of every
    other shift is what it was. *)
Theorem shift_add_order_raises_revenue
    (w w' : world) (shift order : loc) (now : instant) (z p : Z) :
  ShiftM.add_order shift order now w = Some (Ok tt, w') ->
  ShiftM.revenue shift w = Some (Ok z, w) ->
  OrderM.total_price order w = Some (Ok p, w) ->
  ShiftM.revenue shift w' = Some (Ok (z + p), w')
  /\ forall (other : loc) (z' : Z),
       other ≠ shift ->
       ShiftM.revenue other w = Some (Ok z', w) ->
       ShiftM.revenue other w' = Some (Ok z', w').
Proof.
  intros Hadd Hrev Hprice.
  assert (Hcall : run_call (AddOrder shift order now) w = Some (Ok VNone, w')).
  { simpl. rewrite bind_eq, Hadd. reflexivity. }
  assert (Hsame : forall l o, order_heap w !! l = Some o ->
            exists o', order_heap w' !! l = Some o'
                       /\ Order.portions o' = Order.portions o).
  { apply (run_call_portions _ _ _ _ Hcall). done. }
  split.
  - destruct (revenue_inv _ _ _ _ Hrev) as (s & prices & Hs & Hp & ->).
    destruct (run_call_shifts _ _ _ _ Hcall shift s Hs) as (s' & Hs' & Hord & _).
    simpl in Hord. rewrite decide_True in Hord by done.
    assert (Hp' : prices_of w' (Shift.orders s') (prices ++ [p])).
    { rewrite Hord. apply Forall2_app.
      - apply (prices_of_same_portions w w'); [|done]. intros l o _. apply Hsame.
      - apply (prices_of_same_portions w w' [order] [p]).
        + intros l o _. apply Hsame.
        + by constructor. }
    rewrite (revenue_of_prices w' shift s' _ Hs' Hp'), sum_Z_app. simpl.
    do 3 f_equal. lia.
  - intros other z' Hne Hother.
    destruct (revenue_inv _ _ _ _ Hother) as (s & prices & Hs & Hp & ->).
    destruct (run_call_shifts _ _ _ _ Hcall other s Hs) as (s' & Hs' & Hord & _).
    simpl in Hord. rewrite decide_False, app_nil_r in Hord by done.
    apply (revenue_of_prices w' other s' prices Hs'). rewrite Hord.
    apply (prices_of_same_portions w w'); [|done]. intros l o _. apply Hsame.
Qed.

Lemma shift_add_order_raises_revenue_witness :
  ShiftM.revenue 0%nat demo_added_world = Some (Ok 130, demo_added_world)
  /\ exists w',
       ShiftM.add_order 0%nat 0%nat 5 demo_added_world = Some (Ok tt, w')
       /\ ShiftM.revenue 0%nat w' = Some (Ok 260, w').
Proof.
  assert (Hrev : ShiftM.revenue 0%nat demo_added_world
                 = Some (Ok 130, demo_added_world)) by reflexivity.
  assert (Hprice : OrderM.total_price 0%nat demo_added_world
                   = Some (Ok 130, demo_added_world)) by reflexivity.
  split; [exact Hrev|]. eexists.
  assert (Hadd : ShiftM.add_order 0%nat 0%nat 5 demo_added_world
                 = Some (Ok tt,
                         mk_world 1 1
                           {[ 0%nat := Order.mk 1 [demo_portion] true (Some 5) ]}
                           {[ 0%nat := Shift.mk 1 (Some 1) None [0%nat; 0%nat] ]}))
    by reflexivity.
  split; [exact Hadd|].
  destruct (shift_add_order_raises_revenue _ _ 0%nat 0%nat 5 130 130 Hadd Hrev Hprice)
    as [Hnew _].
  exact Hnew.
Defined.

Lemma occurrences_prices (w w' : world) (order : loc) (tp : Z)
    (os : list loc) (prices : list Z) :
  (forall l p, OrderM.total_price l w = Some (Ok p, w) ->
     OrderM.total_price l w'
       = Some (Ok (p + if decide (l = order) then tp else 0), w')) ->
  prices_of w os prices ->
  exists prices', prices_of w' os prices'
    /\ sum_Z prices' = sum_Z prices + occurrences order os * tp.
Proof.
  intros Hstep Hp. induction Hp as [|l p os prices Hl _ (prices' & Hp' & Hsum)].
  - exists []. split; [constructor | simpl; lia].
  - exists ((p + if decide (l = order) then tp else 0) :: prices').
    split; [constructor; [by apply Hstep | done]|].
    simpl. rewrite Hsum. destruct (decide (l = order)); lia.
Qed.

(** X7.  Orders are shared, not copied: a portion added to an order that
    stands in a shift's [orders] (an order already paid) raises the revenue
    of that shift by the price of the portion, once for each time the order
    stands in the list; a shift that does not hold the order keeps its
    revenue. *)
Theorem add_portion_after_payment_raises_revenue
    (w w' : world) (order shift : loc) (s : Shift.t) (portion : Portion.t) (z : Z) :
  OrderM.add_portion order portion w = Some (Ok tt, w') ->
  shift_heap w !! shift = Some s ->
  ShiftM.revenue shift w = Some (Ok z, w) ->
  ShiftM.revenue shift w'
    = Some (Ok (z + occurrences order (Shift.orders s) * Portion.total_price portion), w').
Proof.
  intros Hadd Hs Hrev.
  destruct (revenue_inv _ _ _ _ Hrev) as (s0 & prices & Hs0 & Hp & ->).
  assert (s0 = s) as -> by congruence.
  rewrite order_add_portion_eq in Hadd.
  destruct (order_heap w !! order) as [o|] eqn:Ho; [|done].
  injection Hadd as <-.
  destruct (occurrences_prices w
              (set_order_heap
                 (<[order := Order.set_portions (Order.portions o ++ [portion]) o]>
                    (order_heap w)) w)
              order (Portion.total_price portion) (Shift.orders s) prices)
    as (prices' & Hp' & Hsum); [|done|].
  - intros l p Hl. destruct (total_price_inv _ _ _ _ Hl) as (x & Hx & ->).
    rewrite order_total_price_eq. simpl.
    destruct (decide (l = order)) as [->|Hne].
    + rewrite lookup_insert_eq. simplify_eq. simpl.
      rewrite map_app. simpl. by rewrite py_sum_snoc.
    + rewrite lookup_insert_ne, Hx by done. do 3 f_equal. lia.
  - rewrite <- Hsum. by apply (revenue_of_prices _ shift s).
Qed.

Lemma add_portion_after_payment_raises_revenue_witness :
  ShiftM.revenue 0%nat demo_final_world = Some (Ok 130, demo_final_world)
  /\ exists w',
       OrderM.add_portion 0%nat demo_portion demo_final_world = Some (Ok tt, w')
       /\ ShiftM.revenue 0%nat w' = Some (Ok 260, w').
Proof.
  assert (Hrev : ShiftM.revenue 0%nat demo_final_world
                 = Some (Ok 130, demo_final_world)) by reflexivity.
  split; [exact Hrev|]. eexists.
  assert (Hadd : OrderM.add_portion 0%nat demo_portion demo_final_world
                 = Some (Ok tt,
                         mk_world 1 1
                           {[ 0%nat := Order.mk 1 [demo_portion; demo_portion] true
                                         (Some 2) ]}
                           {[ 0%nat := Shift.mk 1 (Some 1) (Some 3) [0%nat] ]}))
    by reflexivity.
  split; [exact Hadd|].
  rewrite (add_portion_after_payment_raises_revenue _ _ 0%nat 0%nat
             (Shift.mk 1 (Some 1) (Some 3) [0%nat]) demo_portion 130 Hadd eq_refl Hrev).
  reflexivity.
Defined.

(** X8.  A payment is never undone: an order that is paid and stamped
    stays paid and stamped through every sequence of calls, on it or on
    other objects; no method clears the flag or the time. *)
Theorem payment_is_never_undone
    (cs : list call) (w w' : world) (order : loc) (o : Order.t) :
  order_heap w !! order = Some o -> settled o ->
  run_calls cs w = Some w' ->
  exists o', order_heap w' !! order = Some o' /\ settled o'.
Proof.
  revert w o. induction cs as [|c cs IH]; intros w o Ho Hset; simpl.
  - intros [= <-]. eauto.
  - destruct (run_call c w) as [[r w1]|] eqn:Hcall; [|done]. intros Hrun.
    destruct (run_call_orders _ _ _ _ Hcall order o Ho) as (o1 & Ho1 & Hkeep).
    apply (IH w1 o1 Ho1); [by apply Hkeep | done].
Qed.

Lemma payment_is_never_undone_witness :
  exists w',
    run_calls [AddPortion 0%nat demo_portion; NewOrder; Pay 1%nat 4; Open 0%nat 5]
      demo_final_world = Some w'
    /\ exists o', order_heap w' !! 0%nat = Some o' /\ settled o'.
Proof.
  eexists. split; [reflexivity|].
  apply (payment_is_never_undone
           [AddPortion 0%nat demo_portion; NewOrder; Pay 1%nat 4; Open 0%nat 5]
           demo_final_world _ 0%nat (Order.mk 1 [demo_portion] true (Some 2)));
    [reflexivity | | reflexivity].
  split; [reflexivity|]. by exists 2.
Defined.

(** ** More on the catalog files *)

Section InventoryMore.

Variable int : string -> option Z.
Variable fs : string -> file.

Lemma parse_ints_ok (parts : list string) (acc zs : list Z) :
  parse_ints int parts acc = Ok zs <->
  exists new, zs = acc ++ new /\
    Forall2 (fun part z => int (str_strip part) = Some z) parts new.
Proof.
  revert acc. induction parts as [|p parts IH]; intros acc; simpl.
  - split.
    + intros [= <-]. exists []. by rewrite app_nil_r.
    + intros (new & -> & Hall). inversion Hall. by rewrite app_nil_r.
  - destruct (int (str_strip p)) as [z|] eqn:Hp.
    + rewrite IH. split.
      * intros (new & -> & Hall). exists (z :: new).
        rewrite <- app_assoc. split; [done|]. by constructor.
      * intros (new & -> & Hall). inversion Hall as [|? z' ? new' Hz Hrest]; subst.
        exists new'. rewrite <- app_assoc. split; [|done].
        simpl. congruence.
    + split; [done|]. intros (new & _ & Hall).
      inversion Hall; subst. congruence.
Qed.

Lemma parse_ints_raises (parts : list string) (acc : list Z) (e : exn) :
  parse_ints int parts acc = Raise e ->
  exists part, part ∈ parts /\ int (str_strip part) = None.
Proof.
  revert acc. induction parts as [|p parts IH]; intros acc; simpl; [done|].
  destruct (int (str_strip p)) as [z|] eqn:Hp.
  - intros H. destruct (IH _ H) as (part & Hin & Hn).
    exists part. split; [by right | done].
  - intros _. exists p. split; [by left | done].
Qed.

Lemma parse_line_raises (line : string) (e : exn) :
  parse_line int line = Raise e -> line_fails int line.
Proof.
  unfold parse_line, line_fails.
  destruct (str_split ","%char (str_strip line)) as [|part rest]; [done|].
  destruct (parse_ints int rest []) as [zs|e'] eqn:Hp; [done|]. intros _.
  simpl. by apply (parse_ints_raises rest [] e').
Qed.

Lemma parse_line_ok (line : string) (tup : tuple) :
  parse_line int line = Ok tup <->
  exists part rest,
    str_split ","%char (str_strip line) = part :: rest
    /\ tup.1 = str_strip_chars quote part
    /\ Forall2 (fun p z => int (str_strip p) = Some z) rest tup.2.
Proof.
  unfold parse_line.
  destruct (str_split ","%char (str_strip line)) as [|part rest] eqn:Hsplit.
  - split; [|by intros (? & ? & ? & _)]. intros _.
    exfalso. clear -Hsplit. destruct (str_strip line) as [|a s]; simpl in Hsplit; [done|].
    destruct (bool_decide (a = ","%char)); [done|].
    by destruct (str_split ","%char s).
  - destruct (parse_ints int rest []) as [zs|e] eqn:Hp.
    + apply parse_ints_ok in Hp as (new & -> & Hall). simpl in Hall. split.
      * intros [= <-]. exists part, rest. done.
      * intros (part' & rest' & [= <- <-] & Hname & Hall').
        destruct tup as [name zs]. simpl in *. subst name. do 2 f_equal.
        clear -Hall Hall'. revert new zs Hall Hall'.
        induction rest as [|p rest IH]; intros new zs H1 H2;
          inversion H1; inversion H2; subst; [done|].
        f_equal; [congruence | by apply IH].
    + split; [done|]. intros (part' & rest' & [= <- <-] & _ & Hall).
      destruct (parse_ints_raises _ _ _ Hp) as (p & Hin & Hn).
      apply list_elem_of_lookup in Hin as [i Hi].
      destruct (Forall2_lookup_l _ _ _ _ _ Hall Hi) as (z & _ & Hz). congruence.
Qed.

Lemma parse_lines_ok (ls : list string) (acc : list tuple) :
  Forall (fun line => ~ line_fails int line) ls ->
  exists tuples,
    Forall2 (fun line tup => parse_line int line = Ok tup) ls tuples
    /\ parse_lines int ls acc = Ok (acc ++ tuples).
Proof.
  intros Hall. revert acc. induction Hall as [|line ls Hline _ IH]; intros acc.
  - exists []. split; [constructor|]. simpl. by rewrite app_nil_r.
  - simpl. destruct (parse_line int line) as [tup|e] eqn:Hp.
    + destruct (IH (acc ++ [tup])) as (tuples & Hf & Heq).
      exists (tup :: tuples). split; [by constructor|].
      by rewrite Heq, <- app_assoc.
    + destruct Hline. by apply (parse_line_raises line e).
Qed.

(** X9.  When [int] accepts every field after the first of every line,
    [read_file] returns one tuple for each line of the file, in the order
    of the file: element 0 is the first comma-separated field of the
    stripped line without its surrounding double quotes, and the other
    elements are the [int] of the other fields, white space around them
    stripped, in their order. *)
Theorem read_file_parses_every_line (fname : string) (ls : list string) :
  fs fname = Lines ls ->
  Forall (fun line => ~ line_fails int line) ls ->
  Forall2
    (fun line tup =>
       exists part rest,
         str_split ","%char (str_strip line) = part :: rest
         /\ tup.1 = str_strip_chars quote part
         /\ Forall2 (fun p z => int (str_strip p) = Some z) rest tup.2)
    ls (read_file int fs fname).
Proof.
  intros Hfs Hall. unfold read_file. rewrite Hfs.
  destruct (parse_lines_ok ls [] Hall) as (tuples & Hf & ->). simpl.
  eapply Forall2_impl; [exact Hf|]. intros line tup. apply parse_line_ok.
Qed.

Lemma str_split_no_sep (sep : ascii) (s : string) :
  char_in sep s = false -> str_split sep s = [s].
Proof.
  induction s as [|a s IH]; simpl; [done|].
  intros H. apply orb_false_iff in H as [Ha Hs].
  rewrite bool_decide_eq_false in Ha.
  rewrite bool_decide_false by congruence. by rewrite (IH Hs).
Qed.

Lemma parse_line_no_comma (line : string) :
  char_in ","%char (str_strip line) = false ->
  parse_line int line = Ok (str_strip_chars quote (str_strip line), []).
Proof. intros H. unfold parse_line. by rewrite (str_split_no_sep _ _ H). Qed.

Lemma append_flavors_short (tuples : list tuple) (acc : list IceCreamFlavor.t) :
  Exists (fun tup : tuple => tup.2 = []) tuples ->
  append_flavors tuples acc = Raise (IndexError msg_tuple_index).
Proof.
  intros Hex. revert acc. induction tuples as [|tup tuples IH]; intros acc.
  - inversion Hex.
  - simpl. unfold tuple_int. simpl.
    destruct (tup.2) as [|z zs] eqn:Ht; [done|]. simpl.
    apply IH. inversion Hex; subst; [congruence | done].
Qed.

Lemma append_toppings_short (tuples : list tuple) (acc : list Topping.t) :
  Exists (fun tup : tuple => tup.2 = []) tuples ->
  append_toppings tuples acc = Raise (IndexError msg_tuple_index).
Proof.
  intros Hex. revert acc. induction tuples as [|tup tuples IH]; intros acc.
  - inversion Hex.
  - simpl. unfold tuple_int. simpl.
    destruct (tup.2) as [|z zs] eqn:Ht; [done|]. simpl.
    apply IH. inversion Hex; subst; [congruence | done].
Qed.

Lemma append_containers_short (tuples : list tuple) (acc : list Container.t) :
  Exists (fun tup : tuple => tup.2 = []) tuples ->
  append_containers tuples acc = Raise (IndexError msg_tuple_index).
Proof.
  intros Hex. revert acc. induction tuples as [|tup tuples IH]; intros acc.
  - inversion Hex.
  - simpl. unfold tuple_int. simpl.
    destruct (tup.2) as [|z zs] eqn:Ht; [done|]. simpl.
    destruct zs as [|z2 zs]; [done|]. simpl.
    apply IH. inversion Hex; subst; [congruence | done].
Qed.

Lemma read_file_short_tuple (fname : string) (ls : list string) :
  fs fname = Lines ls ->
  Forall (fun line => ~ line_fails int line) ls ->
  Exists (fun line => char_in ","%char (str_strip line) = false) ls ->
  Exists (fun tup : tuple => tup.2 = []) (read_file int fs fname).
Proof.
  intros Hfs Hall Hex. unfold read_file. rewrite Hfs.
  destruct (parse_lines_ok ls [] Hall) as (tuples & Hf & ->). simpl.
  clear Hall Hfs. induction Hf as [|line tup ls tuples Hp _ IH]; [inversion Hex|].
  inversion Hex as [? ? Hc|? ? Hrest]; subst.
  - left. rewrite (parse_line_no_comma line Hc) in Hp. by injection Hp as <-.
  - right. by apply IH.
Qed.

(** X10.  A line without a comma (an empty line at the end of the file, or
    a name alone) is not a parse failure: [read_file] makes a tuple of one
    element of it.  If every line of a catalog file parses and one of them
    has no comma, the loading of that category in
    [IceCreamParlor.__init__] raises [IndexError], for each of the three
    categories: the constructor of the parlor does not return. *)
Theorem catalog_line_without_comma_breaks_loading :
  (forall ls : list string,
     fs "./data/icecream.txt" = Lines ls ->
     Forall (fun line => ~ line_fails int line) ls ->
     Exists (fun line => char_in ","%char (str_strip line) = false) ls ->
     load_flavors int fs = Raise (IndexError msg_tuple_index))
  /\ (forall ls : list string,
        fs "./data/topping.txt" = Lines ls ->
        Forall (fun line => ~ line_fails int line) ls ->
        Exists (fun line => char_in ","%char (str_strip line) = false) ls ->
        load_toppings int fs = Raise (IndexError msg_tuple_index))
  /\ (forall ls : list string,
        fs "./data/container.txt" = Lines ls ->
        Forall (fun line => ~ line_fails int line) ls ->
        Exists (fun line => char_in ","%char (str_strip line) = false) ls ->
        load_containers int fs = Raise (IndexError msg_tuple_index)).
Proof.
  split; [|split]; intros ls Hfs Hall Hex.
  - apply append_flavors_short. by apply (read_file_short_tuple _ ls).
  - apply append_toppings_short. by apply (read_file_short_tuple _ ls).
  - apply append_containers_short. by apply (read_file_short_tuple _ ls).
Qed.

Lemma append_flavors_map (tuples : list tuple) (acc : list IceCreamFlavor.t) :
  Forall (fun tup : tuple => (1 <= length tup.2)%nat) tuples ->
  append_flavors tuples acc = Ok (acc ++ map flavor_of_tuple tuples).
Proof.
  intros Hall. revert acc. induction Hall as [|tup tuples Ht _ IH]; intros acc; simpl.
  - by rewrite app_nil_r.
  - unfold tuple_int. simpl. destruct (tup.2) as [|z zs] eqn:Hz; [simpl in Ht; lia|].
    simpl. rewrite IH, <- app_assoc. unfold flavor_of_tuple. by rewrite Hz.
Qed.

Lemma append_toppings_map (tuples : list tuple) (acc : list Topping.t) :
  Forall (fun tup : tuple => (1 <= length tup.2)%nat) tuples ->
  append_toppings tuples acc = Ok (acc ++ map topping_of_tuple tuples).
Proof.
  intros Hall. revert acc. induction Hall as [|tup tuples Ht _ IH]; intros acc; simpl.
  - by rewrite app_nil_r.
  - unfold tuple_int. simpl. destruct (tup.2) as [|z zs] eqn:Hz; [simpl in Ht; lia|].
    simpl. rewrite IH, <- app_assoc. unfold topping_of_tuple. by rewrite Hz.
Qed.

Lemma append_containers_map (tuples : list tuple) (acc : list Container.t) :
  Forall (fun tup : tuple => (2 <= length tup.2)%nat) tuples ->
  append_containers tuples acc = Ok (acc ++ map container_of_tuple tuples).
Proof.
  intros Hall. revert acc. induction Hall as [|tup tuples Ht _ IH]; intros acc; simpl.
  - by rewrite app_nil_r.
  - unfold tuple_int. simpl.
    destruct (tup.2) as [|z [|z2 zs]] eqn:Hz; [simpl in Ht; lia..|].
    simpl. rewrite IH, <- app_assoc. unfold container_of_tuple. by rewrite Hz.
Qed.

(** X11.  When every tuple read from its file has the elements the loop
    reads (two for a flavor and a topping, three for a container), a
    category is loaded as one item for each tuple, in the order of the
    file, made of the name and the first number (and the second, for a
    container); elements beyond these are ignored.  An empty file gives an
    empty category. *)
Theorem catalog_loads_one_item_per_line :
  (Forall (fun tup : tuple => (1 <= length tup.2)%nat)
     (read_file int fs "./data/icecream.txt") ->
   load_flavors int fs
     = Ok (map flavor_of_tuple (read_file int fs "./data/icecream.txt")))
  /\ (Forall (fun tup : tuple => (1 <= length tup.2)%nat)
        (read_file int fs "./data/topping.txt") ->
      load_toppings int fs
        = Ok (map topping_of_tuple (read_file int fs "./data/topping.txt")))
  /\ (Forall (fun tup : tuple => (2 <= length tup.2)%nat)
        (read_file int fs "./data/container.txt") ->
      load_containers int fs
        = Ok (map container_of_tuple (read_file int fs "./data/container.txt"))).
Proof.
  split; [|split]; intros Hall.
  - unfold load_flavors. by rewrite append_flavors_map.
  - unfold load_toppings. by rewrite append_toppings_map.
  - unfold load_containers. by rewrite append_containers_map.
Qed.

End InventoryMore.

Lemma demo_fs_lines_parse :
  Forall (fun line => ~ line_fails int_latin1 line)
    [quote +:+ "Cup" +:+ quote +:+ ", 2, 30" +:+ newline; "Cone,3,1_0" +:+ newline].
Proof.
  repeat constructor; intros (part & Hin & Hnone); vm_compute in Hin;
    repeat (apply elem_of_cons in Hin as [->|Hin]; [vm_compute in Hnone; discriminate|]);
    by apply elem_of_nil in Hin.
Qed.

Lemma read_file_parses_every_line_witness :
  demo_fs "./data/container.txt"
    = Lines [quote +:+ "Cup" +:+ quote +:+ ", 2, 30" +:+ newline;
             "Cone,3,1_0" +:+ newline]
  /\ read_file int_latin1 demo_fs "./data/container.txt"
     = [("Cup", [2; 30]); ("Cone", [3; 10])]
  /\ Forall2
       (fun line (tup : tuple) =>
          exists part rest,
            str_split ","%char (str_strip line) = part :: rest
            /\ tup.1 = str_strip_chars quote part
            /\ Forall2 (fun p z => int_latin1 (str_strip p) = Some z) rest tup.2)
       [quote +:+ "Cup" +:+ quote +:+ ", 2, 30" +:+ newline; "Cone,3,1_0" +:+ newline]
       (read_file int_latin1 demo_fs "./data/container.txt").
Proof.
  split; [reflexivity|]. split; [reflexivity|].
  apply (read_file_parses_every_line int_latin1 demo_fs "./data/container.txt");
    [reflexivity | exact demo_fs_lines_parse].
Defined.

Lemma catalog_line_without_comma_breaks_loading_witness :
  read_file int_latin1 demo_fs_blank "./data/icecream.txt" = [("Vanilla", [80]); (EmptyString, [])]
  /\ load_flavors int_latin1 demo_fs_blank = Raise (IndexError msg_tuple_index).
Proof.
  split; [reflexivity|].
  destruct (catalog_line_without_comma_breaks_loading int_latin1 demo_fs_blank)
    as (Hfl & _ & _).
  apply (Hfl [quote +:+ "Vanilla" +:+ quote +:+ ", 80" +:+ newline; newline]);
    [reflexivity | |].
  - repeat constructor; intros (part & Hin & Hnone); vm_compute in Hin;
      repeat (apply elem_of_cons in Hin as [->|Hin]; [vm_compute in Hnone; discriminate|]);
      by apply elem_of_nil in Hin.
  - apply Exists_cons_tl, Exists_cons_hd. reflexivity.
Defined.

Lemma catalog_loads_one_item_per_line_witness :
  load_containers int_latin1 demo_fs
    = Ok [Container.mk "Cup" 2 30; Container.mk "Cone" 3 10].
Proof.
  destruct (catalog_loads_one_item_per_line int_latin1 demo_fs) as (_ & _ & Hc).
  rewrite Hc; [reflexivity|].
  assert (Hr : read_file int_latin1 demo_fs "./data/container.txt"
               = [("Cup", [2; 30]); ("Cone", [3; 10])]) by reflexivity.
  rewrite Hr. repeat constructor.
Defined.

(** ** Portions are never taken back *)

Lemma run_call_portions_grow (c : call) (w w' : world) (r : result value) :
  run_call c w = Some (r, w') ->
  forall l o, order_heap w !! l = Some o ->
    exists o' extra, order_heap w' !! l = Some o'
      /\ Order.portions o' = Order.portions o ++ extra.
Proof.
  intros H l o Ho.
  assert (Hcase : (exists ol p, c = AddPortion ol p) \/ forall ol p, c ≠ AddPortion ol p)
    by (destruct c; eauto).
  destruct Hcase as [(ol & p & ->)|Hc].
  - invert_call H. simpl. destruct (decide (ol = l)) as [->|Hne].
    + rewrite lookup_insert_eq. same_object. eexists. exists [p]. done.
    + rewrite lookup_insert_ne by done. exists o, []. by rewrite app_nil_r.
  - destruct (run_call_portions c w w' r H) with (l := l) (o := o)
      as (o' & Ho' & Heq); [|done|].
    + exact Hc.
    + exists o', []. by rewrite app_nil_r.
Qed.

Lemma run_call_accepted_nonempty (c : call) (w w' : world) (r : result value)
    (sl ol : loc) :
  run_call c w = Some (r, w') -> ol ∈ accepted c r sl ->
  exists o', order_heap w' !! ol = Some o' /\ Order.portions o' ≠ [].
Proof.
  intros H Hin.
  destruct c; try (by apply elem_of_nil in Hin).
  invert_call H; simpl in Hin; try (by apply elem_of_nil in Hin).
  destruct (decide (shift = sl)) as [->|Hne]; [|by apply elem_of_nil in Hin].
  apply list_elem_of_singleton in Hin as ->. simpl.
  rewrite lookup_insert_eq. eexists; split; [done|]. simpl. congruence.
Qed.

Lemma orders_nonempty_call (c : call) (w w' : world) (r : result value) :
  orders_nonempty w -> run_call c w = Some (r, w') -> orders_nonempty w'.
Proof.
  intros Hinv H sl s' Hs' ol Hol.
  destruct (shift_heap w !! sl) as [s|] eqn:Hs.
  - destruct (run_call_shifts _ _ _ _ H sl s Hs) as (s2 & Hs2 & Hord & _).
    assert (s2 = s') as -> by congruence.
    rewrite Hord in Hol. apply elem_of_app in Hol as [Hold|Hnew].
    + destruct (Hinv sl s Hs ol Hold) as (o & Ho & Hne).
      destruct (run_call_portions_grow _ _ _ _ H ol o Ho) as (o' & extra & Ho' & Heq).
      exists o'. split; [done|]. rewrite Heq. by destruct (Order.portions o).
    + by apply (run_call_accepted_nonempty _ _ _ _ _ _ H Hnew).
  - rewrite (run_call_new_shift _ _ _ _ H sl s' Hs Hs') in Hol.
    by apply elem_of_nil in Hol.
Qed.

Lemma orders_nonempty_reachable (w : world) : reachable w -> orders_nonempty w.
Proof.
  induction 1 as [|w c r w' _ IH Hc].
  - intros sl s Hs. simpl in Hs. by rewrite lookup_empty in Hs.
  - by apply (orders_nonempty_call c w w' r).
Qed.

(** X12.  No method removes a portion: through every sequence of calls the
    portions an order has stay, in their order, at the front of its list.
    And an order without portions never gets into a shift: in every store
    the calls can reach, every order in the [orders] of a shift has at
    least one portion. *)
Theorem portions_are_never_removed :
  (forall (cs : list call) (w w' : world) (order : loc) (o : Order.t),
     order_heap w !! order = Some o ->
     run_calls cs w = Some w' ->
     exists o' extra, order_heap w' !! order = Some o'
       /\ Order.portions o' = Order.portions o ++ extra)
  /\ (forall w : world, reachable w -> orders_nonempty w).
Proof.
  split; [|exact orders_nonempty_reachable].
  induction cs as [|c cs IH]; intros w w' order o Ho; simpl.
  - intros [= <-]. exists o, []. by rewrite app_nil_r.
  - destruct (run_call c w) as [[r w1]|] eqn:Hcall; [|done]. intros Hrun.
    destruct (run_call_portions_grow _ _ _ _ Hcall order o Ho)
      as (o1 & e1 & Ho1 & Heq1).
    destruct (IH w1 w' order o1 Ho1 Hrun) as (o' & e2 & Ho' & Heq2).
    exists o', (e1 ++ e2). split; [done|]. by rewrite Heq2, Heq1, <- app_assoc.
Qed.

Lemma portions_are_never_removed_witness :
  (exists w',
     run_calls [Pay 0%nat 9; AddPortion 0%nat demo_portion; Close 0%nat 10]
       demo_added_world = Some w'
     /\ exists o' extra, order_heap w' !! 0%nat = Some o'
          /\ Order.portions o' = [demo_portion] ++ extra)
  /\ orders_nonempty demo_final_world.
Proof.
  destruct portions_are_never_removed as [Hgrow Hne].
  split.
  - eexists. split; [reflexivity|].
    apply (Hgrow [Pay 0%nat 9; AddPortion 0%nat demo_portion; Close 0%nat 10]
             demo_added_world _ 0%nat (Order.mk 1 [demo_portion] true (Some 2)));
      reflexivity.
  - apply Hne.
    apply (reachable_run_calls (NewShift :: demo_calls) init_world);
      [apply reachable_init | reflexivity].
Defined.

(** ** The interactive layer: reading a choice *)

Section InteractiveFacts.

Variable int : string -> option Z.

(** X13.  [_select_item] never raises and never indexes outside the list.
    It ends in [EOFError] when the input ends; otherwise it reads lines up
    to the first one that, stripped and lowered, is [x] or a number between
    1 and the length of the list: for [x] it returns [None], for the number
    n the n-th item of the list, counting from 1 as the menu does.  Every
    line before that one was neither. *)
Theorem select_item_returns_listed_item {A : Type}
    (items : list A) (stdin rest : list string) (o : outcome (option A)) :
  _select_item int items stdin = (o, rest) ->
  (o = EOFError /\ rest = [])
  \/ exists (skipped : list string) (line : string),
       stdin = skipped ++ line :: rest
       /\ Forall (fun l => str_lower (str_strip l) ≠ "x"
                    /\ forall n, int (str_lower (str_strip l)) = Some n ->
                         ~ (1 <= n <= Z.of_nat (length items))) skipped
       /\ ((o = Returns None /\ str_lower (str_strip line) = "x")
           \/ exists (n : Z) (item : A),
                int (str_lower (str_strip line)) = Some n
                /\ 1 <= n <= Z.of_nat (length items)
                /\ items !! Z.to_nat (n - 1) = Some item
                /\ o = Returns (Some item)).
Proof.
  revert rest o. induction stdin as [|line stdin IH]; intros rest o; simpl.
  - intros [= <- <-]. by left.
  - destruct (bool_decide_reflect (str_lower (str_strip line) = "x")) as [Hx|Hx].
    { intros [= <- <-]. right. exists [], line. split; [done|]. split; [constructor|].
      by left. }
    assert (Hskip : _select_item int items stdin = (o, rest) ->
              (forall n, int (str_lower (str_strip line)) = Some n ->
                 ~ (1 <= n <= Z.of_nat (length items))) ->
              (o = EOFError /\ rest = [])
              \/ exists skipped line0,
                   line :: stdin = skipped ++ line0 :: rest
                   /\ Forall (fun l => str_lower (str_strip l) ≠ "x"
                                /\ forall n, int (str_lower (str_strip l)) = Some n ->
                                     ~ (1 <= n <= Z.of_nat (length items))) skipped
                   /\ ((o = Returns None /\ str_lower (str_strip line0) = "x")
                       \/ exists n item,
                            int (str_lower (str_strip line0)) = Some n
                            /\ 1 <= n <= Z.of_nat (length items)
                            /\ items !! Z.to_nat (n - 1) = Some item
                            /\ o = Returns (Some item))).
    { intros Hrec Hrej. destruct (IH _ _ Hrec) as [?|(skipped & l0 & -> & Hall & Hlast)];
        [by left|]. right. exists (line :: skipped), l0.
      split; [done|]. split; [by constructor | done]. }
    destruct (int (str_lower (str_strip line))) as [n|] eqn:Hn;
      [|intros Hrec; apply Hskip; [done|]; by intros ? [=]].
    destruct (Z.leb_spec 0 (n - 1)), (Z.ltb_spec (n - 1) (Z.of_nat (length items)));
      simpl; try (intros Hrec; apply Hskip; [done|]; intros ? [= <-]; lia).
    destruct (items !! Z.to_nat (n - 1)) as [item|] eqn:Hitem.
    + intros [= <- <-]. right. exists [], line. split; [done|]. split; [constructor|].
      right. exists n, item. repeat split; [done | lia | lia | done].
    + apply lookup_ge_None in Hitem. lia.
Qed.

(** X14.  [_get_valid_input] returns a number only between [min_val] and
    [max_val]: it reads lines up to the first one that [int] accepts with a
    value in the range and returns that value; every line before was not a
    number or was out of the range.  It ends in [EOFError] when the input
    ends first, as it always does when [min_val > max_val]. *)
Theorem get_valid_input_is_in_range
    (min_val max_val : Z) (stdin rest : list string) (o : outcome Z) :
  _get_valid_input int min_val max_val stdin = (o, rest) ->
  (o = EOFError /\ rest = [])
  \/ exists (skipped : list string) (line : string) (value : Z),
       stdin = skipped ++ line :: rest
       /\ Forall (fun l => forall v, int l = Some v -> ~ (min_val <= v <= max_val)) skipped
       /\ int line = Some value
       /\ min_val <= value <= max_val
       /\ o = Returns value.
Proof.
  revert rest o. induction stdin as [|line stdin IH]; intros rest o; simpl.
  - intros [= <- <-]. by left.
  - assert (Hskip : _get_valid_input int min_val max_val stdin = (o, rest) ->
              (forall v, int line = Some v -> ~ (min_val <= v <= max_val)) ->
              (o = EOFError /\ rest = [])
              \/ exists skipped line0 value,
                   line :: stdin = skipped ++ line0 :: rest
                   /\ Forall (fun l => forall v, int l = Some v ->
                                ~ (min_val <= v <= max_val)) skipped
                   /\ int line0 = Some value
                   /\ min_val <= value <= max_val
                   /\ o = Returns value).
    { intros Hrec Hrej.
      destruct (IH _ _ Hrec) as [?|(skipped & l0 & v & -> & Hall & Hlast)]; [by left|].
      right. exists (line :: skipped), l0, v. split; [done|].
      split; [by constructor | done]. }
    destruct (int line) as [value|] eqn:Hv;
      [|intros Hrec; apply Hskip; [done|]; by intros ? [=]].
    destruct (Z.leb_spec min_val value), (Z.leb_spec value max_val); simpl;
      try (intros Hrec; apply Hskip; [done|]; intros ? [= <-]; lia).
    intros [= <- <-]. right. exists [], line, value.
    split; [done|]. split; [constructor|]. repeat split; [done | lia | lia].
Qed.

(** X15.  [_get_yes_no_input] reads lines up to the first one that,
    stripped and lowered, is [y], [yes] or empty, for which it returns
    [True], or [n] or [no], for which it returns [False]; the empty line,
    Enter alone, means yes.  Every line before was none of these.  It ends
    in [EOFError] when the input ends first, and never raises. *)
Theorem get_yes_no_input_answer
    (stdin rest : list string) (o : outcome bool) :
  _get_yes_no_input stdin = (o, rest) ->
  (o = EOFError /\ rest = [])
  \/ exists (skipped : list string) (line : string),
       stdin = skipped ++ line :: rest
       /\ Forall (fun l => str_lower (str_strip l) ∉ ["y"; "yes"; EmptyString; "n"; "no"]) skipped
       /\ ((o = Returns true /\ str_lower (str_strip line) ∈ ["y"; "yes"; EmptyString])
           \/ (o = Returns false /\ str_lower (str_strip line) ∈ ["n"; "no"])).
Proof.
  revert rest o. induction stdin as [|line stdin IH]; intros rest o; simpl.
  - intros [= <- <-]. by left.
  - destruct (bool_decide_reflect (str_lower (str_strip line) ∈ ["y"; "yes"; EmptyString]))
      as [Hy|Hy].
    { intros [= <- <-]. right. exists [], line. split; [done|]. split; [constructor|].
      by left. }
    destruct (bool_decide_reflect (str_lower (str_strip line) ∈ ["n"; "no"]))
      as [Hn|Hn].
    { intros [= <- <-]. right. exists [], line. split; [done|]. split; [constructor|].
      by right. }
    intros Hrec.
    destruct (IH _ _ Hrec) as [?|(skipped & l0 & -> & Hall & Hlast)]; [by left|].
    right. exists (line :: skipped), l0. split; [done|]. split; [|done].
    constructor; [|done]. intros Hin.
    change ["y"; "yes"; EmptyString; "n"; "no"] with (["y"; "yes"; EmptyString] ++ ["n"; "no"]) in Hin.
    apply elem_of_app in Hin as [H|H]; [by apply Hy | by apply Hn].
Qed.

End InteractiveFacts.

Lemma select_item_returns_listed_item_witness :
  _select_item int_latin1 (IceCreamParlor.containers demo_parlor)
    ["0"; "three"; " 2 "; "y"]
  = (Returns (Some (Container.mk "Cone" 3 10)), ["y"])
  /\ exists skipped line,
       ["0"; "three"; " 2 "; "y"] = skipped ++ line :: ["y"]
       /\ exists n, int_latin1 (str_lower (str_strip line)) = Some n
            /\ IceCreamParlor.containers demo_parlor !! Z.to_nat (n - 1)
               = Some (Container.mk "Cone" 3 10).
Proof.
  assert (Hrun : _select_item int_latin1 (IceCreamParlor.containers demo_parlor)
                   ["0"; "three"; " 2 "; "y"]
                 = (Returns (Some (Container.mk "Cone" 3 10)), ["y"])) by reflexivity.
  split; [exact Hrun|].
  destruct (select_item_returns_listed_item int_latin1 _ _ _ _ Hrun)
    as [[Ho _]|(skipped & line & Heq & _ & Hlast)]; [discriminate|].
  exists skipped, line. split; [exact Heq|].
  destruct Hlast as [[Ho _]|(n & item & Hn & _ & Hitem & Ho)]; [discriminate|].
  exists n. split; [exact Hn|]. injection Ho as ->. exact Hitem.
Defined.

Lemma get_valid_input_is_in_range_witness :
  _get_valid_input int_latin1 1 3 ["0"; "many"; "4"; "2"; "1"] = (Returns 2, ["1"])
  /\ 1 <= 2 <= 3.
Proof.
  assert (Hrun : _get_valid_input int_latin1 1 3 ["0"; "many"; "4"; "2"; "1"]
                 = (Returns 2, ["1"])) by reflexivity.
  split; [exact Hrun|].
  destruct (get_valid_input_is_in_range int_latin1 1 3 _ _ _ Hrun)
    as [[Ho _]|(skipped & line & value & _ & _ & _ & Hrange & Ho)]; [discriminate|].
  injection Ho as ->. exact Hrange.
Defined.

Lemma get_yes_no_input_answer_witness :
  _get_yes_no_input ["maybe"; EmptyString; "n"] = (Returns true, ["n"])
  /\ exists skipped line,
       ["maybe"; EmptyString; "n"] = skipped ++ line :: ["n"]
       /\ str_lower (str_strip line) ∈ ["y"; "yes"; EmptyString].
Proof.
  assert (Hrun : _get_yes_no_input ["maybe"; EmptyString; "n"] = (Returns true, ["n"]))
    by reflexivity.
  split; [exact Hrun|].
  destruct (get_yes_no_input_answer _ _ _ Hrun)
    as [[Ho _]|(skipped & line & Heq & _ & Hlast)]; [discriminate|].
  exists skipped, line. split; [exact Heq|].
  destruct Hlast as [[_ Hin]|[Ho _]]; [exact Hin | discriminate].
Defined.

(** ** The interactive layer: composing a portion *)

Section CreatePortion.

Variable int : string -> option Z.

Lemma select_item_cases {A : Type} (items : list A) (stdin : list string) :
  match _select_item int items stdin with
  | (Returns None, _) => True
  | (Returns (Some item), _) => item ∈ items
  | (EOFError, rest) => rest = []
  | (Raises _, _) => False
  | (OutOfFuel, _) => False
  end.
Proof.
  induction stdin as [|line stdin IH]; simpl; [done|].
  destruct (bool_decide (str_lower (str_strip line) = "x")); [done|].
  destruct (int (str_lower (str_strip line))) as [n|]; [|done].
  destruct (Z.leb_spec 0 (n - 1)), (Z.ltb_spec (n - 1) (Z.of_nat (length items)));
    simpl; try done.
  destruct (items !! Z.to_nat (n - 1)) as [item|] eqn:Hitem.
  - apply list_elem_of_lookup. eauto.
  - apply lookup_ge_None in Hitem. lia.
Qed.

Lemma get_valid_input_cases (min_val max_val : Z) (stdin : list string) :
  match _get_valid_input int min_val max_val stdin with
  | (Returns value, _) => min_val <= value <= max_val
  | (EOFError, rest) => rest = []
  | (Raises _, _) => False
  | (OutOfFuel, _) => False
  end.
Proof.
  induction stdin as [|line stdin IH]; simpl; [done|].
  destruct (int line) as [value|]; [|done].
  destruct (Z.leb_spec min_val value), (Z.leb_spec value max_val); simpl; try done;
    lia.
Qed.

Lemma get_yes_no_input_cases (stdin : list string) :
  match _get_yes_no_input stdin with
  | (Returns _, _) => True
  | (EOFError, rest) => rest = []
  | (Raises _, _) => False
  | (OutOfFuel, _) => False
  end.
Proof.
  induction stdin as [|line stdin IH]; simpl; [done|].
  destruct (bool_decide _); [done|]. by destruct (bool_decide _).
Qed.

Lemma console_bind_eq {A B : Type} (m : console A) (f : A -> console B)
    (stdin : list string) :
  (m ≫= f) stdin =
    match m stdin with
    | (Returns a, rest) => f a rest
    | (Raises e, rest) => (Raises e, rest)
    | (EOFError, rest) => (EOFError, rest)
    | (OutOfFuel, rest) => (OutOfFuel, rest)
    end.
Proof. reflexivity. Qed.

Lemma flavor_loop_done (fuel : nat) (self : IceCreamParlor.t)
    (fl : list IceCreamFlavor.t) (bc : list Z) (rem : Z) (stdin : list string) :
  rem <= 0 -> flavor_loop int fuel self fl bc rem stdin = (Returns (Some (fl, bc)), stdin).
Proof.
  intros Hrem. destruct fuel; simpl;
    (destruct (Z.gtb_spec rem 0); [lia | reflexivity]).
Qed.

Lemma py_sum_ge_length (bc : list Z) :
  Forall (fun b => 1 <= b) bc -> Z.of_nat (length bc) <= py_sum bc.
Proof.
  induction 1 as [|b bc Hb _ IH]; [done|].
  rewrite py_sum_cons. simpl length. lia.
Qed.

(** What the loop keeps: a count of at least one ball for each flavor, the
    flavors from the menu, and the balls taken so far together with the
    balls remaining. *)
Lemma flavor_loop_spec (fuel : nat) (self : IceCreamParlor.t)
    (fl : list IceCreamFlavor.t) (bc : list Z) (rem : Z)
    (stdin rest : list string)
    (o : outcome (option (list IceCreamFlavor.t * list Z))) :
  (Z.to_nat rem <= fuel)%nat ->
  length bc = length fl ->
  Forall (fun b => 1 <= b) bc ->
  Forall (fun f => f ∈ IceCreamParlor.flavors self) fl ->
  flavor_loop int fuel self fl bc rem stdin = (o, rest) ->
  match o with
  | Returns None => fl = [] /\ 0 < rem
  | Returns (Some (fl', bc')) =>
      length bc' = length fl'
      /\ Forall (fun b => 1 <= b) bc'
      /\ Forall (fun f => f ∈ IceCreamParlor.flavors self) fl'
      /\ py_sum bc' <= py_sum bc + Z.max 0 rem
      /\ (0 < rem -> fl' ≠ [])
      /\ (rem <= 0 -> fl' = fl /\ bc' = bc)
  | Raises _ => False
  | EOFError => rest = []
  | OutOfFuel => False
  end.
Proof.
  revert fl bc rem stdin. induction fuel as [|fuel IH];
    intros fl bc rem stdin Hfuel Hlen Hbc Hfl.
  - assert (rem <= 0) by lia. rewrite flavor_loop_done by done.
    intros [= <- <-]. repeat split; try done; lia.
  - destruct (Z_le_gt_dec rem 0) as [Hle|Hgt].
    { rewrite flavor_loop_done by done.
      intros [= <- <-]. repeat split; try done; lia. }
    simpl. destruct (Z.gtb_spec rem 0) as [_|]; [|lia].
    rewrite console_bind_eq.
    pose proof (select_item_cases (IceCreamParlor.flavors self) stdin) as Hsel.
    destruct (_select_item int (IceCreamParlor.flavors self) stdin)
      as [[[flavor|]|e| |] r1]; try done.
    + (* a flavor was chosen *)
      rewrite console_bind_eq.
      pose proof (get_valid_input_cases 1 rem r1) as Hval.
      destruct (_get_valid_input int 1 rem r1) as [[balls|e| |] r2]; try done.
      * assert (Hlen' : length (bc ++ [balls]) = length (fl ++ [flavor]))
          by (rewrite !length_app; simpl; lia).
        assert (Hbc' : Forall (fun b => 1 <= b) (bc ++ [balls]))
          by (apply Forall_app; split; [done|]; constructor; [lia | done]).
        assert (Hfl' : Forall (fun f => f ∈ IceCreamParlor.flavors self) (fl ++ [flavor]))
          by (apply Forall_app; split; [done|]; by constructor).
        assert (Hne : fl ++ [flavor] ≠ []) by (by destruct fl).
        destruct (Z.eqb_spec (rem - balls) 0) as [Hz|Hnz].
        { intros [= <- <-]. rewrite py_sum_snoc.
          repeat split; try done; lia. }
        rewrite console_bind_eq.
        pose proof (get_yes_no_input_cases r2) as Hyn.
        destruct (_get_yes_no_input r2) as [[[|]|e| |] r3]; try done.
        -- (* more flavors *)
           intros Hrec.
           pose proof (IH (fl ++ [flavor]) (bc ++ [balls]) (rem - balls) r3
                         ltac:(lia) Hlen' Hbc' Hfl' Hrec) as Hspec.
           destruct o as [[[fl' bc']|]|e| |]; try done.
           ++ destruct Hspec as (H1 & H2 & H3 & H4 & H5 & H6).
              rewrite py_sum_snoc in H4.
              repeat split; try done; try lia.
              intros _. apply H5. lia.
           ++ destruct Hspec as [Hnil _]. by destruct fl.
        -- intros [= <- <-]. rewrite py_sum_snoc.
           repeat split; try done; lia.
        -- by intros [= <- <-].
      * by intros [= <- <-].
    + (* the choice was cancelled *)
      destruct fl as [|f fl].
      * intros [= <- <-]. split; [done | lia].
      * intros [= <- <-]. repeat split; try done; lia.
    + by intros [= <- <-].
Qed.

Lemma create_portion_spec
    (self : IceCreamParlor.t) (stdin rest : list string)
    (o : outcome (option Portion.t)) :
  create_portion int self stdin = (o, rest) ->
  match o with
  | Returns None => True
  | Returns (Some p) =>
      portion_from_menu self p
      /\ 0 <= Container.max_balls (Portion.container p)
      /\ (1 <= Container.max_balls (Portion.container p) ->
          Portion.flavors p ≠ [] /\ 1 <= py_sum (Portion.balls_count p))
      /\ (Container.max_balls (Portion.container p) = 0 -> Portion.flavors p = [])
  | Raises e =>
      exists c, c ∈ IceCreamParlor.containers self
        /\ Container.max_balls c < 0 /\ e = CapacityExceededError c
  | EOFError => rest = []
  | OutOfFuel => False
  end.
Proof.
  unfold create_portion. rewrite console_bind_eq.
  pose proof (select_item_cases (IceCreamParlor.containers self) stdin) as Hsel.
  destruct (_select_item int (IceCreamParlor.containers self) stdin)
    as [[[c|]|e| |] r1]; try done; [| by intros [= <- <-] | by intros [= <- <-]].
  rewrite console_bind_eq.
  destruct (flavor_loop int (Z.to_nat (Container.max_balls c)) self [] []
              (Container.max_balls c) r1) as [o2 r2] eqn:Hloop.
  pose proof (flavor_loop_spec (Z.to_nat (Container.max_balls c)) self [] []
                (Container.max_balls c) r1 r2 o2
                ltac:(lia) eq_refl ltac:(constructor) ltac:(constructor) Hloop) as Hspec.
  destruct o2 as [[[fl bc]|]|e| |]; try done;
    [| by intros [= <- <-] | by intros [= <- <-]].
  destruct Hspec as (Hlen & Hbc & Hfl & Hsum & Hne & Hzero).
  change (py_sum []) with 0 in Hsum.
  rewrite console_bind_eq.
  pose proof (get_yes_no_input_cases r2) as Hyn.
  destruct (_get_yes_no_input r2) as [[add|e| |] r3]; try done;
    [| by intros [= <- <-]].
  assert (Hfin : forall (tp : option Topping.t) (r4 : list string),
            match tp with
            | Some t => t ∈ IceCreamParlor.topings self
            | None => True
            end ->
            match Portion.init fl bc c tp with
            | Ok portion => (mret (Some portion) : console (option Portion.t))
            | Raise e => console_raise e
            end r4 = (o, rest) ->
            match o with
            | Returns None => True
            | Returns (Some p) =>
                portion_from_menu self p
                /\ 0 <= Container.max_balls (Portion.container p)
                /\ (1 <= Container.max_balls (Portion.container p) ->
                    Portion.flavors p ≠ [] /\ 1 <= py_sum (Portion.balls_count p))
                /\ (Container.max_balls (Portion.container p) = 0 ->
                    Portion.flavors p = [])
            | Raises e =>
                exists c, c ∈ IceCreamParlor.containers self
                  /\ Container.max_balls c < 0 /\ e = CapacityExceededError c
            | EOFError => rest = []
            | OutOfFuel => False
            end).
  { intros tp r4 Htp. rewrite init_same_length by done.
    destruct (Z.gtb_spec (py_sum bc) (Container.max_balls c)) as [Hgt|Hle].
    - (* the constructor raises: the capacity is negative *)
      intros [= <- <-]. exists c. split; [done|]. split; [lia | done].
    - intros [= <- <-]. simpl.
      pose proof (py_sum_ge_length bc Hbc) as Hl.
      split; [repeat split; done|].
      split; [lia|]. split.
      + intros Hcap. assert (fl ≠ []) by (apply Hne; lia).
        split; [done|]. destruct fl; [done|]. simpl in *. rewrite Hlen in Hl. lia.
      + intros Hcap. apply Hzero. lia. }
  rewrite console_bind_eq. destruct add.
  - pose proof (select_item_cases (IceCreamParlor.topings self) r3) as Htop.
    destruct (_select_item int (IceCreamParlor.topings self) r3)
      as [[tp|e| |] r4]; try done; [| by intros [= <- <-]].
    apply Hfin. by destruct tp.
  - by apply Hfin.
Qed.

(** X16.  [create_portion] builds only portions that fit: when it returns
    a portion, the container, the flavors and the topping are items of the
    menu, each flavor has a count of at least one ball, and the balls do not
    exceed the capacity of the container; for a container with room for at
    least one ball the portion has at least one flavor.  Its loop ends
    within [max_balls] turns.  It ends in [EOFError] when the input ends.
    It raises only for a chosen container with a negative capacity, the
    capacity error of the constructor; for a capacity of 0 it returns a
    portion without flavors. *)
Theorem create_portion_builds_fitting_portions
    (self : IceCreamParlor.t) (stdin rest : list string)
    (o : outcome (option Portion.t)) :
  create_portion int self stdin = (o, rest) ->
  match o with
  | Returns None => True
  | Returns (Some p) =>
      portion_from_menu self p
      /\ 0 <= Container.max_balls (Portion.container p)
      /\ (1 <= Container.max_balls (Portion.container p) ->
          Portion.flavors p ≠ [] /\ 1 <= py_sum (Portion.balls_count p))
      /\ (Container.max_balls (Portion.container p) = 0 -> Portion.flavors p = [])
  | Raises e =>
      exists c, c ∈ IceCreamParlor.containers self
        /\ Container.max_balls c < 0 /\ e = CapacityExceededError c
  | EOFError => rest = []
  | OutOfFuel => False
  end.
Proof. apply create_portion_spec. Qed.

End CreatePortion.

Lemma create_portion_builds_fitting_portions_witness :
  let cone := Container.mk "Cone" 3 10 in
  let vanilla := IceCreamFlavor.mk "Vanilla" 50 in
  let pistachio := IceCreamFlavor.mk "Pistachio" 70 in
  create_portion int_latin1 demo_parlor ["2"; "1"; "5"; "2"; "y"; "2"; "1"; "n"; "next"]
    = (Returns (Some (Portion.mk [vanilla; pistachio] [2; 1] cone None)), ["next"])
  /\ portion_from_menu demo_parlor (Portion.mk [vanilla; pistachio] [2; 1] cone None).
Proof.
  cbv zeta.
  assert (Hrun : create_portion int_latin1 demo_parlor
                   ["2"; "1"; "5"; "2"; "y"; "2"; "1"; "n"; "next"]
                 = (Returns (Some (Portion.mk
                      [IceCreamFlavor.mk "Vanilla" 50; IceCreamFlavor.mk "Pistachio" 70]
                      [2; 1] (Container.mk "Cone" 3 10) None)), ["next"]))
    by reflexivity.
  split; [exact Hrun|].
  pose proof (create_portion_builds_fitting_portions int_latin1 demo_parlor _ _ _ Hrun)
    as Hfit.
  simpl in Hfit. exact (proj1 Hfit).
Defined.

(** ** The session: opening and closing shifts *)

Lemma IO_bind_eq {A B : Type} (m : IO A) (f : A -> IO B) (s : session) :
  (m ≫= f) s =
    match m s with
    | None => None
    | Some (Returns a, s') => f a s'
    | Some (Raises e, s') => Some (Raises e, s')
    | Some (EOFError, s') => Some (EOFError, s')
    | Some (OutOfFuel, s') => Some (OutOfFuel, s')
    end.
Proof. reflexivity. Qed.

Lemma lift_M_eq {A : Type} (m : M A) (s : session) :
  lift_M m s =
    match m (store s) with
    | None => None
    | Some (Ok a, w) => Some (Returns a, set_store w s)
    | Some (Raise e, w) => Some (Raises e, set_store w s)
    end.
Proof. reflexivity. Qed.

Lemma current_shift_is_open_eq (s : session) :
  current_shift_is_open s =
    match IceCreamParlor.current_shift (parlor s) with
    | None => Some (Returns false, s)
    | Some sl =>
        match shift_heap (store s) !! sl with
        | Some sh => Some (Returns (ShiftM.is_open_of sh), s)
        | None => None
        end
    end.
Proof.
  unfold current_shift_is_open. rewrite IO_bind_eq. simpl.
  destruct (IceCreamParlor.current_shift (parlor s)) as [sl|]; [|done].
  rewrite lift_M_eq, shift_is_open_eq.
  destruct (shift_heap (store s) !! sl); [|done]. by destruct s.
Qed.

(** Under [session_ok] the guard of the three methods is true exactly when
    there is a current shift. *)
Lemma current_shift_is_open_ok (s : session) :
  session_ok s ->
  current_shift_is_open s
    = Some (Returns (bool_decide (is_Some (IceCreamParlor.current_shift (parlor s)))), s).
Proof.
  intros (_ & Hcur & Hlisted). rewrite current_shift_is_open_eq.
  destruct (IceCreamParlor.current_shift (parlor s)) as [sl|] eqn:Hc.
  - destruct (Hlisted sl (Hcur sl eq_refl)) as (sh & Hsh & Hlife).
    rewrite decide_True in Hlife by done. apply lifecycle_open in Hlife.
    rewrite Hsh, Hlife. by rewrite bool_decide_true by eauto.
  - by rewrite bool_decide_false by (by intros [x Hx]).
Qed.

(** X17.  [_open_shift] never raises.  When a shift is current it changes
    nothing.  Otherwise it constructs a shift, numbered by the counter,
    opens it at the instant of the call, makes it the current shift and
    appends it to the shifts of the parlor; the orders and the other shifts
    are left as they are.  Afterwards, as before, the current shift is the
    one open shift of the parlor and every other listed shift is closed. *)
Theorem open_shift_makes_one_open_shift (now : instant) (s : session) :
  session_ok s -> reachable (store s) ->
  exists s' : session,
    _open_shift now s = Some (Returns tt, s')
    /\ session_ok s' /\ reachable (store s') /\ stdin s' = stdin s
    /\ match IceCreamParlor.current_shift (parlor s) with
       | Some _ => s' = s
       | None =>
           exists sl : loc,
             shift_heap (store s) !! sl = None
             /\ IceCreamParlor.current_shift (parlor s') = Some sl
             /\ IceCreamParlor.shifts (parlor s') = IceCreamParlor.shifts (parlor s) ++ [sl]
             /\ shift_heap (store s')
                = <[sl := Shift.mk (shift_counter (store s) + 1) (Some now) None []]>
                    (shift_heap (store s))
             /\ order_heap (store s') = order_heap (store s)
       end.
Proof.
  intros Hok Hreach. unfold _open_shift.
  rewrite IO_bind_eq, (current_shift_is_open_ok s Hok).
  destruct (IceCreamParlor.current_shift (parlor s)) as [cur|] eqn:Hcur.
  { rewrite bool_decide_true by eauto. by exists s. }
  rewrite bool_decide_false by (by intros [x Hx]).
  destruct Hok as (Hnodup & Hc & Hlisted).
  set (sl := fresh (dom (shift_heap (store s)))).
  assert (Hfresh : shift_heap (store s) !! sl = None)
    by apply not_elem_of_dom, is_fresh.
  rewrite IO_bind_eq, lift_M_eq, shift_init_eq. cbv zeta. fold sl. cbv beta iota.
  rewrite IO_bind_eq. unfold update_self at 1. cbv beta iota.
  rewrite IO_bind_eq, lift_M_eq, shift_open_eq. simpl.
  rewrite lookup_insert_eq. simpl.
  rewrite IO_bind_eq. simpl. unfold update_self. simpl.
  eexists. split; [reflexivity|]. simpl.
  assert (Hnotin : sl ∉ IceCreamParlor.shifts (parlor s)).
  { intros Hin. destruct (Hlisted sl Hin) as (sh & Hsh & _). congruence. }
  split; [|split; [|split; [done|]]].
  - (* session_ok *)
    split; [|split]; simpl.
    + apply NoDup_app. split; [done|]. split; [|apply NoDup_singleton].
      intros x Hx Hx'. apply list_elem_of_singleton in Hx' as ->. done.
    + intros x [= <-]. apply elem_of_app. right. by apply list_elem_of_singleton.
    + intros x Hx. apply elem_of_app in Hx as [Hx|Hx].
      * destruct (Hlisted x Hx) as (sh & Hsh & Hlife).
        assert (x ≠ sl) by (intros ->; done).
        exists sh. rewrite !lookup_insert_ne by done. split; [done|].
        rewrite Hcur in Hlife. rewrite decide_False in Hlife by done.
        rewrite decide_False by congruence. done.
      * apply list_elem_of_singleton in Hx as ->.
        eexists. rewrite lookup_insert_eq. split; [done|].
        by rewrite decide_True.
  - (* reachable *)
    eapply (reachable_call _ (Open sl now) (Ok VNone)).
    + eapply (reachable_call (store s) NewShift (Ok (VRef sl))); [done|].
      simpl. rewrite bind_eq, shift_init_eq. reflexivity.
    + simpl. rewrite bind_eq, shift_open_eq. simpl. rewrite lookup_insert_eq.
      reflexivity.
  - exists sl. repeat split; try done. by rewrite insert_insert_eq.
Qed.

Lemma open_shift_makes_one_open_shift_witness :
  session_ok (demo_session ["n"])
  /\ exists s', _open_shift 1 (demo_session ["n"]) = Some (Returns tt, s')
       /\ session_ok s'
       /\ IceCreamParlor.current_shift (parlor s') = Some 0%nat
       /\ _open_shift 5 s' = Some (Returns tt, s').
Proof.
  assert (Hok : session_ok (demo_session ["n"])).
  { split; [apply NoDup_nil_2|]. split; [done|]. intros sl Hin.
    by apply elem_of_nil in Hin. }
  split; [exact Hok|].
  destruct (open_shift_makes_one_open_shift 1 (demo_session ["n"]) Hok reachable_init)
    as (s' & Hrun & Hok' & Hreach' & _ & Hnew).
  exists s'. split; [exact Hrun|]. split; [exact Hok'|].
  assert (Hrun0 : _open_shift 1 (demo_session ["n"])
                  = Some (Returns tt,
                          mk_session
                            (IceCreamParlor.set_shifts [0%nat]
                               (IceCreamParlor.set_current_shift (Some 0%nat) demo_parlor))
                            (mk_world 0 1 ∅ {[ 0%nat := Shift.mk 1 (Some 1) None [] ]})
                            ["n"])) by reflexivity.
  rewrite Hrun0 in Hrun. injection Hrun as <-.
  split; [reflexivity|].
  destruct (open_shift_makes_one_open_shift 5 _ Hok' Hreach') as (s2 & Hrun2 & _ & _ & _ & Hsame).
  simpl in Hsame. rewrite Hsame in Hrun2. exact Hrun2.
Defined.

(** X18.  [_close_shift] never raises.  Without a current shift it changes
    nothing.  Otherwise it closes the current shift at the instant of the
    call, keeps it in the shifts of the parlor and leaves the parlor without
    a current shift: afterwards every listed shift is closed, and the
    orders are as they were. *)
Theorem close_shift_leaves_no_open_shift (now : instant) (s : session) :
  session_ok s -> reachable (store s) ->
  exists s' : session,
    _close_shift now s = Some (Returns tt, s')
    /\ session_ok s' /\ reachable (store s') /\ stdin s' = stdin s
    /\ IceCreamParlor.current_shift (parlor s') = None
    /\ IceCreamParlor.shifts (parlor s') = IceCreamParlor.shifts (parlor s)
    /\ order_heap (store s') = order_heap (store s)
    /\ match IceCreamParlor.current_shift (parlor s) with
       | None => s' = s
       | Some sl =>
           exists sh : Shift.t,
             shift_heap (store s) !! sl = Some sh
             /\ shift_heap (store s')
                = <[sl := Shift.mk (Shift.number sh) (Shift.start_time sh) (Some now)
                            (Shift.orders sh)]> (shift_heap (store s))
       end.
Proof.
  intros Hok Hreach. unfold _close_shift.
  rewrite IO_bind_eq, (current_shift_is_open_ok s Hok).
  destruct (IceCreamParlor.current_shift (parlor s)) as [cur|] eqn:Hcur.
  2:{ rewrite bool_decide_false by (by intros [x Hx]). simpl.
      exists s. split; [reflexivity|]. split; [done|]. split; [done|].
      repeat split; done. }
  rewrite bool_decide_true by eauto. simpl.
  destruct Hok as (Hnodup & Hc & Hlisted).
  destruct (Hlisted cur (Hc cur Hcur)) as (sh & Hsh & Hlife).
  rewrite Hcur, decide_True in Hlife by done. apply lifecycle_open in Hlife.
  rewrite IO_bind_eq. unfold get_self at 1. simpl. rewrite Hcur.
  rewrite IO_bind_eq, lift_M_eq, shift_close_eq, Hsh, Hlife. simpl.
  unfold update_self. simpl.
  eexists. split; [reflexivity|]. simpl.
  split; [|split; [|repeat split; try done]].
  - split; [done|]. split; [done|]. simpl. intros x Hx.
    destruct (Hlisted x Hx) as (sh' & Hsh' & Hlife').
    destruct (decide (x = cur)) as [->|Hne].
    + rewrite lookup_insert_eq. eexists. split; [done|].
      unfold lifecycle_of. done.
    + rewrite lookup_insert_ne by done. exists sh'. split; [done|].
      rewrite Hcur, decide_False in Hlife' by congruence. done.
  - apply (reachable_run_calls [Close cur now] (store s)); [done|].
    simpl. by rewrite bind_eq, shift_close_eq, Hsh, Hlife.
  - exists sh. done.
Qed.

Lemma close_shift_leaves_no_open_shift_witness :
  let opened :=
    mk_session
      (IceCreamParlor.set_shifts [0%nat]
         (IceCreamParlor.set_current_shift (Some 0%nat) demo_parlor))
      (mk_world 0 1 ∅ {[ 0%nat := Shift.mk 1 (Some 1) None [] ]}) [] in
  exists s', _close_shift 3 opened = Some (Returns tt, s')
    /\ session_ok s'
    /\ IceCreamParlor.current_shift (parlor s') = None
    /\ shift_heap (store s') !! 0%nat = Some (Shift.mk 1 (Some 1) (Some 3) []).
Proof.
  cbv zeta.
  set (opened := mk_session _ _ _).
  assert (Hok : session_ok opened).
  { split; [apply NoDup_singleton|]. split.
    - intros sl [= <-]. by apply list_elem_of_singleton.
    - intros sl Hin. apply list_elem_of_singleton in Hin as ->.
      eexists. split; [reflexivity|]. reflexivity. }
  assert (Hreach : reachable (store opened)).
  { apply (reachable_run_calls [NewShift; Open 0%nat 1] init_world);
      [apply reachable_init | reflexivity]. }
  destruct (close_shift_leaves_no_open_shift 3 opened Hok Hreach)
    as (s' & Hrun & Hok' & _ & _ & Hcur & _ & _ & sh & Hsh & Hheap).
  exists s'. split; [exact Hrun|]. split; [exact Hok'|]. split; [exact Hcur|].
  rewrite Hheap. injection Hsh as <-. reflexivity.
Defined.

(** ** The session: taking an order *)

Section CreateOrder.

Variable int : string -> option Z.

Lemma shrinks_ret {A : Type} (a : A) : shrinks (mret a : console A).
Proof. intros lines rest o [= <- <-]. done. Qed.

Lemma shrinks_raise {A : Type} (e : exn) : shrinks (console_raise e : console A).
Proof. intros lines rest o [= <- <-]. done. Qed.

Lemma shrinks_bind {A B : Type} (m : console A) (f : A -> console B) :
  shrinks m -> (forall a, shrinks (f a)) -> shrinks (m ≫= f).
Proof.
  intros Hm Hf lines rest o. rewrite console_bind_eq.
  destruct (m lines) as [[a|e| |] r1] eqn:Hm1; pose proof (Hm _ _ _ Hm1) as Hle.
  - intros H2. pose proof (Hf a _ _ _ H2). lia.
  - by intros [= <- <-].
  - by intros [= <- <-].
  - by intros [= <- <-].
Qed.

Lemma select_item_shrinks {A : Type} (items : list A) :
  shrinks (_select_item int items).
Proof.
  intros lines. induction lines as [|line lines IH]; intros rest o; simpl.
  - by intros [= <- <-].
  - assert (Hrec : _select_item int items lines = (o, rest) ->
                   (length rest <= S (length lines))%nat).
    { intros H. pose proof (IH _ _ H). lia. }
    destruct (bool_decide _); [intros [= <- <-]; lia|].
    destruct (int _) as [n|]; [|done].
    destruct ((0 <=? n - 1) && (n - 1 <? Z.of_nat (length items))); [|done].
    destruct (items !! Z.to_nat (n - 1)); intros [= <- <-]; lia.
Qed.

Lemma get_valid_input_shrinks (min_val max_val : Z) :
  shrinks (_get_valid_input int min_val max_val).
Proof.
  intros lines. induction lines as [|line lines IH]; intros rest o; simpl.
  - by intros [= <- <-].
  - assert (Hrec : _get_valid_input int min_val max_val lines = (o, rest) ->
                   (length rest <= S (length lines))%nat).
    { intros H. pose proof (IH _ _ H). lia. }
    destruct (int line) as [v|]; [|done].
    destruct ((min_val <=? v) && (v <=? max_val)); [|done].
    intros [= <- <-]. lia.
Qed.

Lemma get_yes_no_input_shrinks : shrinks _get_yes_no_input.
Proof.
  intros lines. induction lines as [|line lines IH]; intros rest o; simpl.
  - by intros [= <- <-].
  - assert (Hrec : _get_yes_no_input lines = (o, rest) ->
                   (length rest <= S (length lines))%nat).
    { intros H. pose proof (IH _ _ H). lia. }
    destruct (bool_decide _); [intros [= <- <-]; lia|].
    destruct (bool_decide _); [intros [= <- <-]; lia|]. done.
Qed.

(** An answer takes a line. *)
Lemma get_yes_no_input_reads (lines rest : list string) (b : bool) :
  _get_yes_no_input lines = (Returns b, rest) -> (length rest < length lines)%nat.
Proof.
  revert rest. induction lines as [|line lines IH]; intros rest; simpl; [done|].
  assert (Hrec : _get_yes_no_input lines = (Returns b, rest) ->
                 (length rest < S (length lines))%nat).
  { intros H. pose proof (IH _ H). lia. }
  destruct (bool_decide _); [intros [= <- <-]; lia|].
  destruct (bool_decide _); [intros [= <- <-]; lia|]. done.
Qed.

Lemma flavor_loop_shrinks (fuel : nat) (self : IceCreamParlor.t)
    (fl : list IceCreamFlavor.t) (bc : list Z) (rem : Z) :
  shrinks (flavor_loop int fuel self fl bc rem).
Proof.
  revert fl bc rem. induction fuel as [|fuel IH]; intros fl bc rem; simpl.
  - destruct (rem >? 0); [|apply shrinks_ret]. by intros lines rest o [= <- <-].
  - destruct (rem >? 0); [|apply shrinks_ret].
    apply shrinks_bind; [apply select_item_shrinks|]. intros [flavor|].
    + apply shrinks_bind; [apply get_valid_input_shrinks|]. intros balls. cbv zeta.
      destruct (rem - balls =? 0); [apply shrinks_ret|].
      apply shrinks_bind; [apply get_yes_no_input_shrinks|].
      intros [|]; [apply IH | apply shrinks_ret].
    + destruct fl; apply shrinks_ret.
Qed.

Lemma create_portion_shrinks (self : IceCreamParlor.t) :
  shrinks (create_portion int self).
Proof.
  unfold create_portion.
  apply shrinks_bind; [apply select_item_shrinks|]. intros [c|]; [|apply shrinks_ret].
  apply shrinks_bind; [apply flavor_loop_shrinks|].
  intros [[fl bc]|]; [|apply shrinks_ret].
  apply shrinks_bind; [apply get_yes_no_input_shrinks|]. intros add.
  apply shrinks_bind.
  - destruct add; [apply select_item_shrinks | apply shrinks_ret].
  - intros tp. destruct (Portion.init fl bc c tp); [apply shrinks_ret | apply shrinks_raise].
Qed.

Lemma order_grows_refl (self : IceCreamParlor.t) (order : loc) (w : world)
    (ord : Order.t) :
  order_heap w !! order = Some ord -> order_grows self order w w.
Proof.
  intros Ho. repeat split; try done. exists ord, []. split; [done|].
  split; [|constructor]. rewrite app_nil_r. by destruct ord.
Qed.

Lemma order_grows_trans (self : IceCreamParlor.t) (order : loc) (w1 w2 w3 : world) :
  order_grows self order w1 w2 -> order_grows self order w2 w3 ->
  order_grows self order w1 w3.
Proof.
  intros (Hs1 & Hc1 & Hd1 & Ho1 & ord1 & e1 & Hl1 & Hl1' & He1)
         (Hs2 & Hc2 & Hd2 & Ho2 & ord2 & e2 & Hl2 & Hl2' & He2).
  split; [congruence|]. split; [congruence|]. split; [congruence|].
  split; [intros l Hne; rewrite Ho2, Ho1; done|].
  exists ord1, (e1 ++ e2). split; [done|]. split; [|by apply Forall_app].
  rewrite Hl2'. rewrite Hl1' in Hl2. injection Hl2 as <-. simpl.
  by rewrite app_assoc.
Qed.

Lemma order_grows_add_portion (self : IceCreamParlor.t) (order : loc) (w : world)
    (ord : Order.t) (p : Portion.t) :
  order_heap w !! order = Some ord -> portion_from_menu self p ->
  order_grows self order w
    (set_order_heap
       (<[order := Order.set_portions (Order.portions ord ++ [p]) ord]> (order_heap w)) w).
Proof.
  intros Ho Hp. repeat split; try done.
  - intros l Hne. simpl. by rewrite lookup_insert_ne.
  - exists ord, [p]. split; [done|]. simpl. rewrite lookup_insert_eq.
    split; [done|]. by constructor.
Qed.

(** The loop of [create_order]: it ends, and all it does to the store is
    to add portions from the menu to the order. *)
Lemma portions_loop_spec (fuel : nat) (order : loc) (s : session) (ord : Order.t) :
  (length (stdin s) < fuel)%nat ->
  order_heap (store s) !! order = Some ord ->
  reachable (store s) ->
  exists (o : outcome unit) (s' : session),
    portions_loop int fuel order s = Some (o, s')
    /\ parlor s' = parlor s
    /\ order_grows (parlor s) order (store s) (store s')
    /\ reachable (store s')
    /\ ends_well (parlor s) o s'.
Proof.
  revert s ord. induction fuel as [|fuel IH]; intros s ord Hfuel Ho Hreach; [lia|].
  (* what follows the portion: the question and, on yes, the next turn *)
  assert (Hcont : forall (s1 : session),
            parlor s1 = parlor s ->
            order_grows (parlor s) order (store s) (store s1) ->
            reachable (store s1) ->
            (length (stdin s1) <= length (stdin s))%nat ->
            exists o s',
              (lift_console _get_yes_no_input
                 ≫= fun more : bool =>
                      if more then portions_loop int fuel order else mret tt) s1
                = Some (o, s')
              /\ parlor s' = parlor s
              /\ order_grows (parlor s) order (store s) (store s')
              /\ reachable (store s')
              /\ ends_well (parlor s) o s').
  { intros s1 Hp1 Hg1 Hr1 Hlen1. rewrite IO_bind_eq. unfold lift_console.
    pose proof (get_yes_no_input_cases (stdin s1)) as Hyn.
    destruct (_get_yes_no_input (stdin s1)) as [[[|]|e| |] r2] eqn:Hyes; try done.
    - (* another portion *)
      pose proof (get_yes_no_input_reads _ _ _ Hyes) as Hread.
      pose proof Hg1 as (_ & _ & _ & _ & ord0 & e1 & _ & Hl1 & _).
      destruct (IH (set_stdin r2 s1) _ ltac:(simpl; lia) Hl1 Hr1)
        as (o & s' & Hrun & Hp' & Hg' & Hr' & Hend).
      exists o, s'. split; [exact Hrun|]. simpl in Hp', Hg', Hend.
      rewrite Hp1 in Hp', Hg', Hend. split; [done|]. split; [|done].
      by apply (order_grows_trans _ _ _ (store s1)).
    - exists (Returns tt), (set_stdin r2 s1). split; [done|].
      split; [done|]. split; [done|]. split; [done|]. by left.
    - exists EOFError, (set_stdin r2 s1). split; [done|].
      split; [done|]. split; [done|]. split; [done|]. right. left. done. }
  simpl. rewrite IO_bind_eq. unfold get_self at 1. cbv beta iota.
  rewrite IO_bind_eq. unfold lift_console at 1.
  pose proof (create_portion_spec int (parlor s) (stdin s)) as Hspec.
  pose proof (create_portion_shrinks (parlor s) (stdin s)) as Hshrink.
  destruct (create_portion int (parlor s) (stdin s)) as [o1 r1].
  specialize (Hspec r1 o1 eq_refl). specialize (Hshrink r1 o1 eq_refl).
  destruct o1 as [[p|]|e| |]; try done.
  - (* a portion: it is added to the order *)
    destruct Hspec as (Hmenu & _).
    rewrite IO_bind_eq, lift_M_eq, order_add_portion_eq. simpl. rewrite Ho.
    apply Hcont; simpl; try done.
    + by apply order_grows_add_portion.
    + apply (reachable_call (store s) (AddPortion order p) (Ok VNone)); [done|].
      simpl. by rewrite bind_eq, order_add_portion_eq, Ho.
  - (* no portion *)
    rewrite IO_bind_eq. simpl. apply Hcont; simpl; try done.
    by apply (order_grows_refl _ _ _ ord).
  - (* the constructor raised *)
    exists (Raises e), (set_stdin r1 s). split; [done|].
    split; [done|]. split; [by apply (order_grows_refl _ _ _ ord)|].
    split; [done|]. right. right. destruct Hspec as (c & Hc & Hneg & ->). eauto.
  - exists EOFError, (set_stdin r1 s). split; [done|].
    split; [done|]. split; [by apply (order_grows_refl _ _ _ ord)|].
    split; [done|]. right. left. done.
Qed.

End CreateOrder.

Section CreateOrderTheorem.

Variable int : string -> option Z.

(** X19.  [create_order] never raises the errors of [add_order] and
    [pay]: it returns, or the input ends, or the constructor of [Portion]
    refuses a container of negative capacity.  Without a current shift it
    does nothing and reads nothing.  With one, it constructs an order, which
    takes the next order number also when it is dropped later, and adds to
    it only portions put together from the menu; nothing else in the store
    changes but this order and the current shift.  The order is appended to
    the orders of the current shift, paid at the instant of the call,
    exactly when the loop returned and the order has a portion; otherwise
    the shift is as it was and the order stays unpaid.  The shifts of the
    parlor are as before. *)
Theorem create_order_adds_only_paid_orders (now : instant) (s : session) :
  session_ok s -> reachable (store s) ->
  exists (o : outcome unit) (s' : session),
    create_order int now s = Some (o, s')
    /\ parlor s' = parlor s /\ session_ok s' /\ reachable (store s')
    /\ ends_well (parlor s) o s'
    /\ match IceCreamParlor.current_shift (parlor s) with
       | None => o = Returns tt /\ s' = s
       | Some sl =>
           let order := fresh (dom (order_heap (store s))) in
           exists (sh : Shift.t) (ord : Order.t),
             shift_heap (store s) !! sl = Some sh
             /\ order_heap (store s) !! order = None
             /\ (forall l, l ≠ sl -> shift_heap (store s') !! l = shift_heap (store s) !! l)
             /\ (forall l, l ≠ order -> order_heap (store s') !! l = order_heap (store s) !! l)
             /\ order_heap (store s') !! order = Some ord
             /\ Order.number ord = order_counter (store s) + 1
             /\ Forall (portion_from_menu (parlor s)) (Order.portions ord)
             /\ ((shift_heap (store s') !! sl = Some sh
                  /\ Order.paid ord = false
                  /\ (o = Returns tt -> Order.portions ord = []))
                 \/ (o = Returns tt
                     /\ Order.portions ord ≠ []
                     /\ Order.paid ord = true
                     /\ Order.time_of_payment ord = Some now
                     /\ shift_heap (store s') !! sl
                        = Some (Shift.set_orders (Shift.orders sh ++ [order]) sh)))
       end.
Proof.
  intros Hok Hreach. unfold create_order. set (loop := portions_loop int).
  rewrite IO_bind_eq, (current_shift_is_open_ok s Hok).
  destruct (IceCreamParlor.current_shift (parlor s)) as [sl|] eqn:Hcur.
  2:{ rewrite bool_decide_false by (by intros [x Hx]). simpl.
      exists (Returns tt), s. split; [reflexivity|]. split; [done|].
      split; [done|]. split; [done|]. split; [by left | done]. }
  rewrite bool_decide_true by eauto. change (negb true) with false. cbv beta iota.
  pose proof Hok as (Hnodup & Hc & Hlisted).
  destruct (Hlisted sl (Hc sl Hcur)) as (sh & Hsh & Hlife).
  rewrite Hcur, decide_True in Hlife by done. apply lifecycle_open in Hlife.
  set (order := fresh (dom (order_heap (store s)))).
  assert (Hfresh : order_heap (store s) !! order = None)
    by apply not_elem_of_dom, is_fresh.
  set (ord0 := Order.mk (order_counter (store s) + 1) [] false None).
  set (w1 := mk_world (order_counter (store s) + 1) (shift_counter (store s))
               (<[order := ord0]> (order_heap (store s))) (shift_heap (store s))).
  rewrite IO_bind_eq, lift_M_eq, order_init_eq. cbv zeta. fold order ord0 w1.
  cbv beta iota. rewrite IO_bind_eq. unfold get_stdin at 1. cbv beta iota.
  rewrite IO_bind_eq.
  assert (Hreach1 : reachable w1).
  { apply (reachable_call (store s) NewOrder (Ok (VRef order))); [done|].
    simpl. by rewrite bind_eq, order_init_eq. }
  destruct (portions_loop_spec int (S (length (stdin (set_store w1 s)))) order
              (set_store w1 s) ord0)
    as (o2 & s2 & Hloop & Hp2 & Hg2 & Hr2 & Hend2);
    [simpl; lia | simpl; apply lookup_insert_eq | done |].
  subst loop. rewrite Hloop. simpl in Hp2, Hg2, Hend2.
  destruct Hg2 as (Hsh2 & Hoc2 & Hsc2 & Hother2 & ord1 & extra & Hl1 & Hl2 & Hextra).
  simpl in Hsh2, Hoc2, Hsc2, Hother2, Hl1, Hl2.
  rewrite lookup_insert_eq in Hl1. injection Hl1 as <-. simpl in Hl2.
  assert (Hothers : forall l, l ≠ order ->
            order_heap (store s2) !! l = order_heap (store s) !! l).
  { intros l Hne. rewrite Hother2 by done. by rewrite lookup_insert_ne. }
  assert (Hok2 : session_ok s2).
  { split; [by rewrite Hp2|]. split; [by rewrite Hp2|].
    rewrite Hp2, Hsh2. exact Hlisted. }
  assert (Hdropped : forall o', ends_well (parlor s) o' s2 ->
            (o' = Returns tt -> extra = []) ->
            parlor s2 = parlor s /\ session_ok s2 /\ reachable (store s2)
            /\ ends_well (parlor s) o' s2
            /\ exists sh0 ord,
                 shift_heap (store s) !! sl = Some sh0
                 /\ order_heap (store s) !! order = None
                 /\ (forall l, l ≠ sl ->
                       shift_heap (store s2) !! l = shift_heap (store s) !! l)
                 /\ (forall l, l ≠ order ->
                       order_heap (store s2) !! l = order_heap (store s) !! l)
                 /\ order_heap (store s2) !! order = Some ord
                 /\ Order.number ord = order_counter (store s) + 1
                 /\ Forall (portion_from_menu (parlor s)) (Order.portions ord)
                 /\ ((shift_heap (store s2) !! sl = Some sh0
                      /\ Order.paid ord = false
                      /\ (o' = Returns tt -> Order.portions ord = []))
                     \/ (o' = Returns tt
                         /\ Order.portions ord ≠ []
                         /\ Order.paid ord = true
                         /\ Order.time_of_payment ord = Some now
                         /\ shift_heap (store s2) !! sl
                            = Some (Shift.set_orders (Shift.orders sh0 ++ [order]) sh0)))).
  { intros o' Hend' Hnil. split; [done|]. split; [done|]. split; [done|].
    split; [done|]. exists sh. eexists. split; [done|]. split; [done|].
    split; [intros l _; by rewrite Hsh2|]. split; [done|].
    split; [exact Hl2|]. split; [done|]. split; [done|].
    left. rewrite Hsh2. done. }
  destruct Hend2 as [->|[[-> Hnil]|(c & Hcin & Hneg & ->)]].
  - (* the loop returned *)
    rewrite IO_bind_eq, lift_M_eq. unfold get_order at 1. rewrite Hl2. cbv beta iota.
    simpl.
    destruct extra as [|p extra].
    + (* nothing was ordered *)
      exists (Returns tt), (set_store (store s2) s2). split; [reflexivity|].
      assert (Hs2 : set_store (store s2) s2 = s2) by (by destruct s2).
      rewrite Hs2. apply Hdropped; [by left | done].
    + rewrite IO_bind_eq. simpl. rewrite Hp2, Hcur.
      rewrite lift_M_eq, shift_add_order_cases. simpl.
      rewrite Hsh2, Hsh, Hlife, Hl2. simpl.
      eexists. eexists. split; [reflexivity|]. simpl.
      split; [done|]. split; [|split; [|split; [by left|]]].
      * (* session_ok *)
        unfold session_ok. simpl. rewrite Hp2. split; [done|]. split; [done|].
        intros x Hx. destruct (Hlisted x Hx) as (shx & Hshx & Hlx).
        destruct (decide (x = sl)) as [->|Hne].
        -- rewrite lookup_insert_eq. eexists. split; [done|].
           assert (shx = sh) as -> by congruence. exact Hlx.
        -- rewrite lookup_insert_ne by done. eauto.
      * (* reachable *)
        apply (reachable_call (store s2) (AddOrder sl order now) (Ok VNone)); [done|].
        simpl. rewrite bind_eq, shift_add_order_cases.
        by rewrite Hsh2, Hsh, Hlife, Hl2.
      * exists sh. eexists. split; [done|]. split; [done|].
        split; [intros l Hne; by rewrite lookup_insert_ne|].
        split; [intros l Hne; rewrite lookup_insert_ne by done; by apply Hothers|].
        split; [by rewrite lookup_insert_eq|]. split; [done|]. split; [done|].
        right. split; [done|]. split; [done|]. split; [done|]. split; [done|].
        by rewrite lookup_insert_eq.
  - (* the input ended *)
    exists EOFError, s2. split; [reflexivity|].
    apply Hdropped; [right; left; done | done].
  - (* the constructor raised *)
    exists (Raises (CapacityExceededError c)), s2. split; [reflexivity|].
    apply Hdropped; [right; right; eauto | done].
Qed.

End CreateOrderTheorem.

Lemma demo_open_session_ok (lines : list string) :
  session_ok (demo_open_session lines) /\ reachable (store (demo_open_session lines)).
Proof.
  split.
  - split; [apply NoDup_singleton|]. split.
    + intros sl [= <-]. by apply list_elem_of_singleton.
    + intros sl Hin. apply list_elem_of_singleton in Hin as ->.
      eexists. split; reflexivity.
  - apply (reachable_run_calls [NewShift; Open 0%nat 1] init_world);
      [apply reachable_init | reflexivity].
Qed.

Lemma create_order_adds_only_paid_orders_witness :
  let lines := ["1"; "1"; "2"; "n"; "n"; "rest"] in
  session_ok (demo_open_session lines)
  /\ reachable (store (demo_open_session lines))
  /\ exists s',
       create_order int_latin1 2 (demo_open_session lines) = Some (Returns tt, s')
       /\ session_ok s'
       /\ stdin s' = ["rest"]
       /\ order_heap (store s') !! 0%nat = Some (Order.mk 1 [demo_portion] true (Some 2))
       /\ shift_heap (store s') !! 0%nat = Some (Shift.mk 1 (Some 1) None [0%nat]).
Proof.
  cbv zeta.
  destruct (demo_open_session_ok ["1"; "1"; "2"; "n"; "n"; "rest"]) as [Hok Hreach].
  split; [exact Hok|]. split; [exact Hreach|].
  destruct (create_order_adds_only_paid_orders int_latin1 2 _ Hok Hreach)
    as (o & s' & Hrun & _ & Hok' & _).
  assert (Hrun0 : create_order int_latin1 2
                    (demo_open_session ["1"; "1"; "2"; "n"; "n"; "rest"])
                  = Some (Returns tt,
                          mk_session
                            (IceCreamParlor.set_shifts [0%nat]
                               (IceCreamParlor.set_current_shift (Some 0%nat) demo_parlor))
                            (mk_world 1 1
                               (<[0%nat := Order.mk 1 [demo_portion] true (Some 2)]>
                                  (<[0%nat := Order.mk 1 [] false None]> ∅))
                               (<[0%nat := Shift.mk 1 (Some 1) None [0%nat]]>
                                  {[ 0%nat := Shift.mk 1 (Some 1) None [] ]}))
                            ["rest"])) by reflexivity.
  rewrite Hrun0 in Hrun. injection Hrun as <- <-.
  eexists. split; [exact Hrun0|]. split; [exact Hok'|].
  split; [reflexivity|]. split; reflexivity.
Defined.

(** ** The lines of the menu *)

Lemma string_length_app (s1 s2 : string) :
  String.length (s1 +:+ s2) = (String.length s1 + String.length s2)%nat.
Proof. induction s1 as [|a s1 IH]; simpl; [done | by rewrite IH]. Qed.

Lemma str_repeat_length (fill : ascii) (n : nat) :
  String.length (str_repeat fill n) = n.
Proof. induction n as [|n IH]; simpl; [done | by rewrite IH]. Qed.

Lemma format_left_length (fill : ascii) (width : nat) (s : string) :
  String.length (format_left fill width s) = (width `max` String.length s)%nat.
Proof. unfold format_left. rewrite string_length_app, str_repeat_length. lia. Qed.

Lemma format_right_length (fill : ascii) (width : nat) (s : string) :
  String.length (format_right fill width s) = (width `max` String.length s)%nat.
Proof. unfold format_right. rewrite string_length_app, str_repeat_length. lia. Qed.

Lemma string_app_assoc (s1 s2 s3 : string) : (s1 +:+ s2) +:+ s3 = s1 +:+ (s2 +:+ s3).
Proof.
  induction s1 as [|a s1 IH]; [done|].
  change (String a ((s1 +:+ s2) +:+ s3) = String a (s1 +:+ (s2 +:+ s3))).
  by rewrite IH.
Qed.

(** X20.  The lines of the menu line up and lose nothing.  The text of a
    flavor and of a topping is the whole name, filled with dots on the right
    to a column of 30, then the price in decimal, filled with dots on the
    left to a column of 10: it is exactly 40 characters long whenever the
    name has at most 30 characters and the price at most 10, and a longer
    name or price makes the line longer and is not cut.  The text of a
    container is the whole name filled with spaces on the right to a column
    of 25, then the capacity in decimal between [ (cap. ] and [)], then the
    base price in decimal filled with dots on the left to a column of 6. *)
Theorem menu_lines_are_aligned :
  (forall f : IceCreamFlavor.t,
     let name := IceCreamFlavor.name f in
     let price := pretty (IceCreamFlavor.price_per_ball f) in
     let name_column := name +:+ str_repeat "."%char (30 - String.length name) in
     let price_column := str_repeat "."%char (10 - String.length price) +:+ price in
     IceCreamFlavor_repr f = name_column +:+ price_column
     /\ String.length name_column = (30 `max` String.length name)%nat
     /\ String.length price_column = (10 `max` String.length price)%nat
     /\ String.length (IceCreamFlavor_repr f)
        = ((30 `max` String.length name) + (10 `max` String.length price))%nat
     /\ exists dots : string, IceCreamFlavor_repr f = name +:+ dots +:+ price)
  /\ (forall t : Topping.t,
        let name := Topping.name t in
        let price := pretty (Topping.price t) in
        let name_column := name +:+ str_repeat "."%char (30 - String.length name) in
        let price_column := str_repeat "."%char (10 - String.length price) +:+ price in
        Topping_repr t = name_column +:+ price_column
        /\ String.length name_column = (30 `max` String.length name)%nat
        /\ String.length price_column = (10 `max` String.length price)%nat
        /\ String.length (Topping_repr t)
           = ((30 `max` String.length name) + (10 `max` String.length price))%nat
        /\ exists dots : string, Topping_repr t = name +:+ dots +:+ price)
  /\ (forall c : Container.t,
        let name := Container.type_name c in
        let capacity := pretty (Container.max_balls c) in
        let price := pretty (Container.base_price c) in
        let name_column := name +:+ str_repeat " "%char (25 - String.length name) in
        let price_column := str_repeat "."%char (6 - String.length price) +:+ price in
        Container_repr c
          = name_column +:+ " (cap. " +:+ capacity +:+ ")" +:+ price_column
        /\ String.length name_column = (25 `max` String.length name)%nat
        /\ String.length price_column = (6 `max` String.length price)%nat
        /\ String.length (Container_repr c)
           = ((25 `max` String.length name) + 7 + String.length capacity + 1
              + (6 `max` String.length price))%nat).
Proof.
  split; [|split].
  - intros f. cbv zeta. split; [reflexivity|].
    split; [apply format_left_length|]. split; [apply format_right_length|].
    unfold IceCreamFlavor_repr. split.
    + by rewrite string_length_app, format_left_length, format_right_length.
    + unfold format_left, format_right. eexists.
      rewrite string_app_assoc. f_equal. by rewrite <- string_app_assoc.
  - intros t. cbv zeta. split; [reflexivity|].
    split; [apply format_left_length|]. split; [apply format_right_length|].
    unfold Topping_repr. split.
    + by rewrite string_length_app, format_left_length, format_right_length.
    + unfold format_left, format_right. eexists.
      rewrite string_app_assoc. f_equal. by rewrite <- string_app_assoc.
  - intros c. cbv zeta. split; [reflexivity|].
    split; [apply format_left_length|]. split; [apply format_right_length|].
    unfold Container_repr.
    rewrite !string_length_app, format_left_length, format_right_length.
    simpl. lia.
Qed.
